(** * llm-wrapper: provider abstraction and resilience layer

    A shallow embedding of [src/provider/ollamacloud.ts] (the OllamaCloud
    adapter, the [BaseProvider] retry loop and the [KeyRotator]) and of
    [src/provider/openai.ts] (the OpenAI adapter's classifier), with the
    properties of the specification stated and settled over it.

    Conventions of the embedding.
    - A JavaScript string is the list of its UTF-16 code units
      ([jsstring]); [js "abc"] is the string written between the quotes.
    - A JavaScript number is an IEEE 754 binary64 value ([float]); array
      indices and the rotation cursor, which the code only ever moves
      through integers, are [Z].
    - [undefined] is [None] of an [option]; a thrown exception is the
      [Throw] case of [result].
    - Effects on the outside world (the upstream chat call, the clock) are
      explicit state passing over a world state.
    - Platform functions whose definition is the ECMAScript standard and
      not this repository ([JSON.parse], [JSON.stringify],
      [String.prototype.toLowerCase]) are parameters, gathered in the
      [Platform] record; [RefPlatform] is an executable instance.
    - Values the code types as [any] have the type the code reads them
      at: a request has messages with string contents, a thrown value is
      an object whose [message], [code], [status] and [error] are
      strings or numbers when present.
    - Console output is not modelled. *)

From Stdlib Require Import ZArith NArith Lia Ascii String List Floats.
From stdpp Require Import base tactics option list numbers pretty.

Set Warnings "-register-all".
Open Scope Z_scope.

(** ** JavaScript strings *)

Definition jsstring : Type := list N.

Definition js (s : string) : jsstring :=
  map N_of_ascii (list_ascii_of_string s).
Arguments js s%_string.

(** [jsq] writes a text that holds double quotes: each backquote of the
    literal stands for one double quote. *)
Definition jsq (s : string) : jsstring :=
  map (fun c => if (c =? 96)%N then 34%N else c) (js s).
Arguments jsq s%_string.

(** The text a template literal puts for a string that may be
    [undefined]. *)
Definition interpolate (s : option jsstring) : jsstring :=
  match s with
  | Some s => s
  | None => js "undefined"
  end.

(** [s || d] on a string that may be [undefined] or [null]: the empty
    string is falsy. *)
Definition or_default (s : option jsstring) (d : jsstring) : jsstring :=
  match s with
  | Some (c :: r) => c :: r
  | _ => d
  end.

#[global] Instance jsstring_eq_dec : EqDecision jsstring := _.

(** [a === b] on two strings. *)
Definition str_eqb (a b : jsstring) : bool := bool_decide (a = b).

(** [needle] is a prefix of [s]. *)
Fixpoint startsWith (needle s : jsstring) : bool :=
  match needle, s with
  | [], _ => true
  | _ :: _, [] => false
  | c :: needle', d :: s' => (c =? d)%N && startsWith needle' s'
  end.

(** [s.includes(needle)]: [needle] occurs in [s] as a substring. *)
Fixpoint includes (s needle : jsstring) : bool :=
  startsWith needle s ||
  match s with
  | [] => false
  | _ :: s' => includes s' needle
  end.

(** [parts.join(sep)]. *)
Fixpoint join (sep : jsstring) (parts : list jsstring) : jsstring :=
  match parts with
  | [] => []
  | [p] => p
  | p :: rest => p ++ sep ++ join sep rest
  end.

(** ** Exceptions *)

(** The value the upstream client library throws, as far as the adapters
    read it: [message] (interpolated into the wrapping error), [status]
    and [error] (read by the classifier through [provider_error]). *)
Record ProviderError := {
  pe_message : option jsstring;
  status : option Z;
  error : option jsstring
}.

(** An error object as the adapters throw it: [new Error(message)] with a
    [provider_error] attached; [code] is the field the OpenAI classifier
    reads. *)
Record Error := {
  message : option jsstring;
  code : option jsstring;
  provider_error : option ProviderError
}.

Inductive result (A : Type) : Type :=
| Ok (a : A)
| Throw (e : Error).
Arguments Ok {A} a.
Arguments Throw {A} e.

#[global] Instance result_bind : MBind result :=
  fun A B f r => match r with
                 | Ok a => f a
                 | Throw e => Throw e
                 end.

(** [new Error(text)]. *)
Definition new_Error (text : jsstring) : Error :=
  {| message := Some text; code := None; provider_error := None |}.

(** ** KeyRotator *)

Record KeyRotator := {
  currentKeyIndex : Z;
  keys : list jsstring
}.

(** [keys[i]] for an integer [i]: [undefined] outside the array. *)
Definition index {A} (l : list A) (i : Z) : option A :=
  if i <? 0 then None else l !! Z.to_nat i.

(** [new KeyRotator(keys)]. *)
Definition new_KeyRotator (ks : list jsstring) : result KeyRotator :=
  if (Z.of_nat (length ks) =? 0) then
    Throw (new_Error (js "KeyRotator requires at least one key"))
  else Ok {| currentKeyIndex := -1; keys := ks |}.

Definition getKeyCount (r : KeyRotator) : Z := Z.of_nat (length (keys r)).

(** [getNextKey]: the returned key and the rotator after the call. *)
Definition getNextKey (r : KeyRotator) : option jsstring * KeyRotator :=
  let i := Z.rem (currentKeyIndex r + 1) (Z.of_nat (length (keys r))) in
  (index (keys r) i, {| currentKeyIndex := i; keys := keys r |}).

Definition getCurrentKey (r : KeyRotator) : option jsstring :=
  index (keys r) (currentKeyIndex r).

Definition getCurrentIndex (r : KeyRotator) : Z := currentKeyIndex r.

(** [n] consecutive [getNextKey] calls: the keys returned, in call order,
    and the rotator after the last call. *)
Fixpoint getNextKey_times (n : nat) (r : KeyRotator)
  : list (option jsstring) * KeyRotator :=
  match n with
  | O => ([], r)
  | S n' =>
      let '(k, r1) := getNextKey r in
      let '(ks, r2) := getNextKey_times n' r1 in
      (k :: ks, r2)
  end.

(** The state invariant of a rotator built by the constructor: a
    non-empty pool and a cursor that is unset ([-1]) or a pool index. *)
Definition rotator_ok (r : KeyRotator) : Prop :=
  keys r <> [] /\ -1 <= currentKeyIndex r < Z.of_nat (length (keys r)).

(** ** JSON values

    The values [JSON.parse] returns, which are also the JavaScript
    values the adapter puts into its replies. An object is the list of
    its own properties in enumeration order, with distinct names. *)

Inductive json : Type :=
| JNull
| JBool (b : bool)
| JNumber (x : float)
| JString (s : jsstring)
| JArray (items : list json)
| JObject (fields : list (jsstring * json)).

(** The platform functions the adapters call. [JSON_parse] throws a
    [SyntaxError] on text that is not JSON. *)
Class Platform := {
  JSON_parse : jsstring -> result json;
  JSON_stringify : json -> jsstring;
  toLowerCase : jsstring -> jsstring
}.

(** [ToBoolean] of a value. *)
Definition truthy (v : json) : bool :=
  match v with
  | JNull => false
  | JBool b => b
  | JNumber x => negb (PrimFloat.eqb x 0%float || PrimFloat.is_nan x)
  | JString s => negb (bool_decide (s = []))
  | JArray _ => true
  | JObject _ => true
  end.

(** [ToBoolean] of a value that may be [undefined]. *)
Definition truthy_opt (v : option json) : bool :=
  match v with
  | None => false
  | Some v => truthy v
  end.

(** The own property [k] of an object's property list. *)
Fixpoint assoc (k : jsstring) (fields : list (jsstring * json)) : option json :=
  match fields with
  | [] => None
  | (k', v) :: rest => if str_eqb k k' then Some v else assoc k rest
  end.

(** The [TypeError] of a property read on [null]; its text depends on
    the engine. *)
Definition TypeError : Error :=
  {| message := None; code := None; provider_error := None |}.

(** [v.k] for one of the names [tool], [arguments], [final], which no
    prototype defines: the own property of an object, [undefined] on a
    primitive or an array, a [TypeError] on [null]. *)
Definition get (v : json) (k : jsstring) : result (option json) :=
  match v with
  | JNull => Throw TypeError
  | JObject fields => Ok (assoc k fields)
  | _ => Ok None
  end.

(** ** Strings: white space, [trim] and the two regular expressions *)

(** The code units of [WhiteSpace] and [LineTerminator]: what [trim]
    strips and what [\s] matches. *)
Definition isWhiteSpace (c : N) : bool :=
  ((9 <=? c) && (c <=? 13) || (c =? 32) || (c =? 160) || (c =? 5760)
   || (8192 <=? c) && (c <=? 8202) || (c =? 8232) || (c =? 8233)
   || (c =? 8239) || (c =? 8287) || (c =? 12288) || (c =? 65279))%N.

Fixpoint trimStart (s : jsstring) : jsstring :=
  match s with
  | [] => []
  | c :: s' => if isWhiteSpace c then trimStart s' else s
  end.

Definition trimEnd (s : jsstring) : jsstring := rev (trimStart (rev s)).

Definition trim (s : jsstring) : jsstring := trimEnd (trimStart s).

Definition LBRACE : N := 123.
Definition RBRACE : N := 125.
Definition FENCE : jsstring := [96; 96; 96]%N.

(** The leftmost position of [s] at which [m] succeeds: how an
    unanchored regular expression is searched. *)
Fixpoint search {A} (m : jsstring -> option A) (s : jsstring) : option A :=
  match m s with
  | Some x => Some x
  | None => match s with
            | [] => None
            | _ :: s' => search m s'
            end
  end.

(** [p*] (greedy) followed by [k]: the longest run first, then shorter
    ones. *)
Fixpoint star_greedy {A} (p : N -> bool) (k : jsstring -> option A)
    (s : jsstring) : option A :=
  match s with
  | c :: s' =>
      if p c then
        match star_greedy p k s' with
        | Some x => Some x
        | None => k s
        end
      else k s
  | [] => k []
  end.

(** The tail of the fence pattern, [\s*```], at the start of [s]. *)
Definition fence_tail (s : jsstring) : bool :=
  match star_greedy isWhiteSpace
          (fun r => if startsWith FENCE r then Some tt else None) s with
  | Some _ => true
  | None => false
  end.

(** [[\s\S]*?\}\s*```] after the opening brace: [acc] holds, reversed,
    the group's text read so far. The lazy star tries the rest of the
    pattern before it takes one more code unit. *)
Fixpoint fence_body (acc : jsstring) (s : jsstring) : option jsstring :=
  match s with
  | [] => None
  | c :: r =>
      if (c =? RBRACE)%N && fence_tail r then Some (rev (c :: acc))
      else fence_body (c :: acc) r
  end.

(** [\s*(\{[\s\S]*?\})\s*```] at the start of [s]: the group. *)
Definition fence_group (s : jsstring) : option jsstring :=
  star_greedy isWhiteSpace
    (fun r => match r with
              | c :: body => if (c =? LBRACE)%N then fence_body [c] body else None
              | [] => None
              end) s.

(** The whole fence pattern at the start of [s]; [(?:json)?] is greedy:
    with [json] first, without it if that fails. *)
Definition fence_at (s : jsstring) : option jsstring :=
  if startsWith FENCE s then
    let r := drop 3 s in
    if startsWith (js "json") r then
      match fence_group (drop 4 r) with
      | Some g => Some g
      | None => fence_group r
      end
    else fence_group r
  else None.

(** [s.match(/```(?:json)?\s*(\{[\s\S]*?\})\s*```/)]: group 1 of the
    leftmost match, [None] when the pattern does not match. *)
Definition match_fenced (s : jsstring) : option jsstring := search fence_at s.

(** [[\s\S]*\}] (greedy): the longest prefix of [s] that ends in a
    closing brace. *)
Fixpoint object_body (s : jsstring) : option jsstring :=
  match s with
  | [] => None
  | c :: r =>
      match object_body r with
      | Some m => Some (c :: m)
      | None => if (c =? RBRACE)%N then Some [c] else None
      end
  end.

Definition object_at (s : jsstring) : option jsstring :=
  match s with
  | c :: r => if (c =? LBRACE)%N then option_map (cons c) (object_body r) else None
  | [] => None
  end.

(** [s.match(/\{[\s\S]*\}/)]: the text of the leftmost match. *)
Definition match_object (s : jsstring) : option jsstring := search object_at s.

(** ** The unified request and response *)

(** [tc.function.arguments] of a prior tool call: a string, or a value
    still to be serialised. *)
Inductive ToolArguments :=
| ArgumentsText (s : jsstring)
| ArgumentsValue (v : json).

Record ToolCallTurn := {
  tc_name : option jsstring;
  tc_arguments : ToolArguments
}.

Record ChatMessage := {
  role : jsstring;
  content : jsstring;
  name : option jsstring;
  tool_calls : option (list ToolCallTurn)
}.

Record ToolParameters := {
  properties : option json;
  required : option json
}.

(** [tool.function] of a tool schema. *)
Record ToolFunction := {
  fn_name : jsstring;
  fn_description : option jsstring;
  fn_parameters : option ToolParameters
}.

Record Request := {
  model : jsstring;
  messages : list ChatMessage;
  temperature : option float;
  max_tokens : option float;
  tools : option (list ToolFunction);
  tool_choice : option jsstring
}.

Record ToolCall := {
  call_id : jsstring;
  call_type : jsstring;
  function_name : json;
  function_arguments : jsstring
}.

(** The message of a choice; [JNull] is a [null] content. *)
Record ReplyMessage := {
  reply_role : jsstring;
  reply_content : json;
  reply_tool_calls : option (list ToolCall)
}.

Record Choice := {
  choice_index : Z;
  choice_message : ReplyMessage;
  finish_reason : jsstring
}.

Record Usage := {
  prompt_tokens : Z;
  completion_tokens : Z;
  total_tokens : Z
}.

Record Response := {
  response_id : jsstring;
  response_model : jsstring;
  choices : list Choice;
  usage : Usage
}.

(** The two shapes of model output the decoder accepts. *)
Inductive decoded :=
| ToolInvocation (tool args : json)
| FinalAnswer (final : json).

(** ** The outside world *)

(** What [ollama.chat] is called with, and the client it is called on. *)
Record ChatCall := {
  chat_host : jsstring;
  chat_Authorization : jsstring;
  chat_model : jsstring;
  chat_messages : list ChatMessage;
  chat_stream : bool;
  chat_temperature : option float;
  chat_num_predict : option float
}.

(** What [chat.completions.create] is called with, and its client. *)
Record CompletionCall := {
  create_baseURL : jsstring;
  create_apiKey : option jsstring;
  create_model : jsstring;
  create_messages : list ChatMessage;
  create_stream : bool;
  create_temperature : option float;
  create_max_tokens : option float;
  create_tools : option (list ToolFunction);
  create_tool_choice : jsstring
}.

(** The end of an awaited upstream call. *)
Inductive upstream (A : Type) : Type :=
| Replied (a : A)
| Failed (e : ProviderError).
Arguments Replied {A} a.
Arguments Failed {A} e.

(** The world the adapters act on: the clock, and the two upstream
    services, each call of which may change the world. [ollama_chat]
    gives [response.message.content]. *)
Class World (W : Type) := {
  Date_now : W -> Z * W;
  ollama_chat : ChatCall -> W -> upstream jsstring * W;
  openai_create : CompletionCall -> W -> upstream Response * W
}.

(** ** OllamaCloudProvider *)

Definition NL : jsstring := [10%N].

Section OllamaCloud.
Context `{P : Platform} `{World W}.

Definition toolCallText (tc : ToolCallTurn) : jsstring :=
  let args := match tc_arguments tc with
              | ArgumentsText s => s
              | ArgumentsValue v => JSON_stringify v
              end in
  jsq "{`tool`:`" ++ interpolate (tc_name tc) ++ jsq "`,`arguments`:"
    ++ args ++ js "}".

Definition preprocessMessage (msg : ChatMessage) : ChatMessage :=
  match tool_calls msg with
  | Some tcs =>
      {| role := role msg; content := join NL (map toolCallText tcs);
         name := None; tool_calls := None |}
  | None =>
      if str_eqb (role msg) (js "tool") then
        {| role := js "user";
           content := js "Tool result from " ++ or_default (name msg) (js "tool")
                        ++ js ":" ++ NL ++ content msg;
           name := None; tool_calls := None |}
      else msg
  end.

Definition preprocessMessages (msgs : list ChatMessage) : list ChatMessage :=
  map preprocessMessage msgs.

(** [v || d] on a schema part. *)
Definition or_value (v : option json) (d : json) : json :=
  match v with
  | Some v => if truthy v then v else d
  | None => d
  end.

Definition toolDescription (tool : ToolFunction) : jsstring :=
  let params := or_value (fn_parameters tool ≫= properties) (JObject []) in
  let req := or_value (fn_parameters tool ≫= required) (JArray []) in
  js "- " ++ fn_name tool ++ js ": " ++ interpolate (fn_description tool)
    ++ NL ++ js "  Parameters: "
    ++ JSON_stringify (JObject [(js "properties", params); (js "required", req)]).

Definition buildToolInstruction (tls : list ToolFunction) : jsstring :=
  let toolDescriptions := join NL (map toolDescription tls) in
  join NL
    [js "You have access to the following tools:";
     [];
     toolDescriptions;
     [];
     js "IMPORTANT: When you need to use a tool, respond with ONLY a JSON object in this exact format:";
     jsq "{`tool`:`<tool_name>`,`arguments`:{<argument_name>:<value>,...}}";
     js "Do not include any other text or explanation outside of the JSON object about what you were thinking or similar.";
     [];
     js "CRITICAL JSON FORMATTING RULES:";
     js "- All argument values must be valid JSON types (string, number, boolean, object, array, null)";
     jsq "- For string values, use double quotes: `value`";
     jsq "- For object values, use proper JSON syntax: {`key`: `value`}";
     jsq "- For array values, use proper JSON syntax: [`item1`, `item2`]";
     js "- Do NOT nest JSON strings inside other JSON strings";
     js "- Do NOT escape quotes inside object values";
     js "- All JSON must be valid and parseable by JSON.parse()";
     [];
     js "EXAMPLES:";
     [9989%N] ++ jsq " CORRECT: {`tool`:`my_tool`,`arguments`:{`param1`:`string_value`,`param2`:{`nested`:`object`},`param3`:[`array`,`values`]}}";
     [10060%N] ++ jsq " WRONG: {`tool`:`my_tool`,`arguments`:{`param1`:`{`nested`:`string`}`}}";
     [];
     js "When you have the final answer and don't need any tools, respond with ONLY a JSON object in this exact format:";
     jsq "{`final`:`<your response>`}";
     [];
     js "Do not include any other text or explanation outside of the JSON object."].

Definition isSystem (msg : ChatMessage) : bool := str_eqb (role msg) (js "system").

(** [{...msg, content: msg.content + '\n\n' + instruction}]. *)
Definition withInstruction (instruction : jsstring) (msg : ChatMessage) : ChatMessage :=
  {| role := role msg;
     content := content msg ++ NL ++ NL ++ instruction;
     name := name msg;
     tool_calls := tool_calls msg |}.

(** [{role: 'system', content: instruction}]. *)
Definition systemMessage (instruction : jsstring) : ChatMessage :=
  {| role := js "system"; content := instruction;
     name := None; tool_calls := None |}.

Definition injectToolInstruction (msgs : list ChatMessage) (instruction : jsstring)
  : list ChatMessage :=
  let hasSystemMessage := existsb isSystem msgs in
  if hasSystemMessage then
    map (fun msg => if isSystem msg then withInstruction instruction msg else msg) msgs
  else
    systemMessage instruction :: msgs.

(** The inner [try] of [parseToolCallResponse]: the value of [parsed],
    through the three steps of the fallback chain. A step that finds a
    candidate text parses it; if that parse throws, the exception leaves
    the chain. *)
Definition extractJSON (trimmed : jsstring) : result json :=
  match JSON_parse trimmed with
  | Ok parsed => Ok parsed
  | Throw _ =>
      match match_fenced trimmed with
      | Some group => JSON_parse group
      | None =>
          match match_object trimmed with
          | Some text => JSON_parse text
          | None => Throw (new_Error (js "Cannot extract JSON from response"))
          end
      end
  end.

Definition zero_usage : Usage :=
  {| prompt_tokens := 0; completion_tokens := 0; total_tokens := 0 |}.

(** The reply that carries one tool call. *)
Definition toolCallReply (t_id t_call : Z) (tool args : json) : Response :=
  {| response_id := js "chatcmpl-" ++ js (pretty t_id);
     response_model := js "ollama-cloud";
     choices :=
       [{| choice_index := 0;
           choice_message :=
             {| reply_role := js "assistant";
                reply_content := JNull;
                reply_tool_calls :=
                  Some [{| call_id := js "call_" ++ js (pretty t_call);
                           call_type := js "function";
                           function_name := tool;
                           function_arguments := JSON_stringify args |}] |};
           finish_reason := js "tool_calls" |}];
     usage := zero_usage |}.

(** The reply that carries an assistant message and stops. *)
Definition plainReply (t_id : Z) (mdl : jsstring) (text : json) : Response :=
  {| response_id := js "chatcmpl-" ++ js (pretty t_id);
     response_model := mdl;
     choices :=
       [{| choice_index := 0;
           choice_message :=
             {| reply_role := js "assistant";
                reply_content := text;
                reply_tool_calls := None |};
           finish_reason := js "stop" |}];
     usage := zero_usage |}.

(** What the [try] block makes of [parsed]: a tool call when
    [parsed.tool && parsed.arguments] is truthy, else a final answer
    when [parsed.final] is truthy, else the exception
    [Cannot handle response]. *)
Definition interpretFinal (final : option json) : result decoded :=
  match final with
  | Some final_v =>
      if truthy final_v then Ok (FinalAnswer final_v)
      else Throw (new_Error (js "Cannot handle response"))
  | None => Throw (new_Error (js "Cannot handle response"))
  end.

Definition interpret (parsed : json) : result decoded :=
  tool ← get parsed (js "tool");
  args ← get parsed (js "arguments");
  final ← get parsed (js "final");
  match tool, args with
  | Some tool_v, Some args_v =>
      if truthy tool_v && truthy args_v then Ok (ToolInvocation tool_v args_v)
      else interpretFinal final
  | _, _ => interpretFinal final
  end.

(** The outer [try] block of [parseToolCallResponse]. *)
Definition decodeToolCall (content : jsstring) (w : W) : result Response * W :=
  match extractJSON (trim content) ≫= interpret with
  | Throw e => (Throw e, w)
  | Ok (ToolInvocation tool args) =>
      let '(t_id, w1) := Date_now w in
      let '(t_call, w2) := Date_now w1 in
      (Ok (toolCallReply t_id t_call tool args), w2)
  | Ok (FinalAnswer final) =>
      let '(t_id, w1) := Date_now w in
      (Ok (plainReply t_id (js "ollama-cloud") final), w1)
  end.

(** [parseToolCallResponse]: whatever the [try] block throws is caught
    and [null] ([None]) is returned. *)
Definition parseToolCallResponse (content : jsstring) (w : W)
  : option Response * W :=
  match decodeToolCall content w with
  | (Ok response, w') => (Some response, w')
  | (Throw _, w') => (None, w')
  end.

Definition OllamaCloud_wrap (e : ProviderError) : Error :=
  {| message := Some (js "Failed to connect to OllamaCloud: "
                        ++ interpolate (pe_message e));
     code := None;
     provider_error := Some e |}.

Definition hasTools (request : Request) : bool :=
  match tools request with
  | Some (_ :: _) => true
  | _ => false
  end.

(** The messages [doSendRequest] hands to the upstream. *)
Definition upstreamMessages (request : Request) : list ChatMessage :=
  let msgs := preprocessMessages (messages request) in
  if hasTools request then
    injectToolInstruction msgs (buildToolInstruction (default [] (tools request)))
  else msgs.

(** The client [doSendRequest] builds and the call it makes on it. *)
Definition chatCall (host : option jsstring) (apiKey : option jsstring)
    (request : Request) : ChatCall :=
  {| chat_host := or_default host (js "https://ollama.com");
     chat_Authorization := js "Bearer " ++ interpolate apiKey;
     chat_model := model request;
     chat_messages := upstreamMessages request;
     chat_stream := false;
     chat_temperature := temperature request;
     chat_num_predict := max_tokens request |}.

Definition OllamaCloud_doSendRequest (host : option jsstring)
    (apiKey : option jsstring) (request : Request) (w : W)
  : result Response * W :=
  match ollama_chat (chatCall host apiKey request) w with
  | (Failed e, w1) => (Throw (OllamaCloud_wrap e), w1)
  | (Replied reply, w1) =>
      let '(toolCallResponse, w2) :=
        if hasTools request then parseToolCallResponse reply w1
        else (None, w1) in
      match toolCallResponse with
      | Some response => (Ok response, w2)
      | None =>
          let '(t_id, w3) := Date_now w2 in
          (Ok (plainReply t_id (model request) (JString reply)), w3)
      end
  end.

(** Usage is not available upstream: [null]. *)
Definition OllamaCloud_doGetUsage (apiKey : option jsstring) (w : W)
  : result json * W :=
  (Ok JNull, w).

Definition OllamaCloud_isQuotaExceededError (e : Error) : bool :=
  let errorMessage := match message e with
                      | Some m => toLowerCase m
                      | None => []
                      end in
  let providerError := provider_error e in
  let statusIs (n : Z) := bool_decide (providerError ≫= status = Some n) in
  let payloadIncludes (t : jsstring) :=
    match providerError ≫= error with
    | Some text => includes text t
    | None => false
    end in
  if includes errorMessage (js "quota")
     || includes errorMessage (js "rate limit")
     || includes errorMessage (js "too many requests") then true
  else if statusIs 429 then true
  else if statusIs 502 || statusIs 503 || statusIs 504 then true
  else if includes errorMessage (js "upstream error")
          || includes errorMessage (js "bad gateway")
          || includes errorMessage (js "service unavailable")
          || includes errorMessage (js "gateway timeout") then true
  else if payloadIncludes (js "quota") || payloadIncludes (js "rate limit") then true
  else false.

End OllamaCloud.

(** ** OpenAIProvider *)

Section OpenAI.
Context `{World W}.

Definition OpenAI_wrap (e : ProviderError) : Error :=
  {| message := Some (js "Failed to connect to OpenAI: "
                        ++ interpolate (pe_message e));
     code := None;
     provider_error := Some e |}.

Definition OpenAI_doSendRequest (host : option jsstring)
    (apiKey : option jsstring) (request : Request) (w : W)
  : result Response * W :=
  let call :=
    {| create_baseURL := or_default host (js "https://api.openai.com");
       create_apiKey := apiKey;
       create_model := model request;
       create_messages := messages request;
       create_stream := false;
       create_temperature := temperature request;
       create_max_tokens := max_tokens request;
       create_tools := tools request;
       create_tool_choice := or_default (tool_choice request) (js "auto") |} in
  match openai_create call w with
  | (Failed e, w1) => (Throw (OpenAI_wrap e), w1)
  | (Replied response, w1) => (Ok response, w1)
  end.

Definition OpenAI_doGetUsage (apiKey : option jsstring) (w : W)
  : result json * W :=
  (Ok JNull, w).

Definition OpenAI_isQuotaExceededError (e : Error) : bool :=
  bool_decide (code e = Some (js "quota_exceeded")).

End OpenAI.

(** ** BaseProvider *)

(** The three hooks a provider class implements. *)
Class Adapter (W : Type) := {
  doSendRequest : option jsstring -> Request -> W -> result Response * W;
  doGetUsage : option jsstring -> W -> result json * W;
  isQuotaExceededError : Error -> bool
}.

#[global] Instance OllamaCloudProvider `{Platform} `{World W}
    (host : option jsstring) : Adapter W :=
  {| doSendRequest := OllamaCloud_doSendRequest host;
     doGetUsage := OllamaCloud_doGetUsage;
     isQuotaExceededError := OllamaCloud_isQuotaExceededError |}.

#[global] Instance OpenAIProvider `{World W} (host : option jsstring) : Adapter W :=
  {| doSendRequest := OpenAI_doSendRequest host;
     doGetUsage := OpenAI_doGetUsage;
     isQuotaExceededError := OpenAI_isQuotaExceededError |}.

(** How a [sendRequest] call ends: with a response, or with the thrown
    value, [lastError], which starts as [null] ([None]). *)
Inductive outcome :=
| Resolved (response : Response)
| Rejected (thrown : option Error).

(** One pass of the retry loop: the credential given to the adapter, the
    cursor position it came from, and how the adapter call ended. *)
Record Attempt := {
  attempt_key : option jsstring;
  attempt_index : Z;
  attempt_result : result Response
}.

Section BaseProvider.
Context {W : Type} `{A : Adapter W}.

(** The [for] loop of [sendRequest] with [remaining] passes left. *)
Fixpoint retryLoop (remaining : nat) (lastError : option Error)
    (request : Request) (keyRotator : KeyRotator) (w : W)
  : outcome * list Attempt * KeyRotator * W :=
  match remaining with
  | O => (Rejected lastError, [], keyRotator, w)
  | S remaining' =>
      let '(apiKey, keyRotator1) := getNextKey keyRotator in
      let '(res, w1) := doSendRequest apiKey request w in
      let this := {| attempt_key := apiKey;
                     attempt_index := getCurrentIndex keyRotator1;
                     attempt_result := res |} in
      match res with
      | Ok response => (Resolved response, [this], keyRotator1, w1)
      | Throw e =>
          if isQuotaExceededError e then
            let '(out, rest, keyRotator2, w2) :=
              retryLoop remaining' (Some e) request keyRotator1 w1 in
            (out, this :: rest, keyRotator2, w2)
          else (Rejected (Some e), [this], keyRotator1, w1)
      end
  end.



(** [sendRequest]: the outcome, the adapter calls made, in order, and
    the rotator and the world after the call. *)
Definition sendRequest (request : Request) (keyRotator : KeyRotator) (w : W)
  : outcome * list Attempt * KeyRotator * W :=
  let totalKeys := getKeyCount keyRotator in
  retryLoop (Z.to_nat totalKeys) None request keyRotator w.


End BaseProvider.

(** ** The HTTP boundary ([server.ts])

    Express hands the middleware and the handlers the request headers
    and the parsed body, and takes a status and a JSON body back. The
    provider manager and the providers it returns are seen through
    their interface (the [Provider] interface of [types.ts]): each call
    is a step on the state of the registry, and what a call throws is
    an error object. *)

(** [s.split(sep)] for a non-empty [sep]: [cur] holds, reversed, the
    part being read, and [skip] the code units of a separator just found
    that are still to be passed over. *)
Fixpoint split_from (sep : jsstring) (skip : nat) (cur : jsstring) (s : jsstring)
  : list jsstring :=
  match s with
  | [] => [rev cur]
  | c :: r =>
      match skip with
      | S skip' => split_from sep skip' cur r
      | O =>
          if startsWith sep s then rev cur :: split_from sep (length sep - 1) [] r
          else split_from sep 0 (c :: cur) r
      end
  end.

Definition split (s sep : jsstring) : list jsstring := split_from sep 0 [] s.

(** What [error.provider_error || error] puts into an error body. *)
Inductive ErrorDetail :=
| UpstreamDetail (e : ProviderError)
| ThrownDetail (e : Error).

(** The bodies the server answers with. *)
Inductive ReplyBody :=
| ResponseBody (response : Response)
| UsageBody (info : json)
| ErrorBody (message type : jsstring) (detail : option ErrorDetail).

(** [res.status(status).json(body)]; [res.json(body)] has status 200. *)
Record HttpReply := {
  http_status : Z;
  http_body : ReplyBody
}.

(** [authenticateApiKey]: the reply it ends the request with, or the
    provider it stores in [req.extractedProvider] before [next()].
    [authorization] and [providerHeader] are the [authorization] and
    [x-provider] headers, [key] is [config.server.api.key]. *)
Definition authenticateApiKey (authorization providerHeader : option jsstring)
    (key : jsstring) : HttpReply + jsstring :=
  let denied (text : jsstring) :=
    inl {| http_status := 401;
           http_body := ErrorBody text (js "authentication_error") None |} in
  match authorization with
  | Some authHeader =>
      if startsWith (js "Bearer ") authHeader then
        let token := drop 7 authHeader in
        let check (provider apiKey : jsstring) :=
          if negb (str_eqb apiKey key) then denied (js "Invalid API key")
          else inr provider in
        match providerHeader with
        | Some (c :: r) => check (c :: r) token
        | _ =>
            match split token (js "//") with
            | [provider; apiKey] => check provider apiKey
            | _ =>
                denied (js "Missing X-Provider header or invalid token format. Expected: X-Provider header OR token format provider//apiKey")
            end
        end
      else denied (js "Missing or invalid authorization header")
  | None => denied (js "Missing or invalid authorization header")
  end.

(** The body of a chat request, [req.body]: [provider] is the gateway's
    own field, the others are the provider's. *)
Record ChatBody := {
  body_provider : option jsstring;
  body_model : option jsstring;
  body_messages : option (list ChatMessage);
  body_temperature : option float;
  body_max_tokens : option float;
  body_tools : option (list ToolFunction);
  body_tool_choice : option jsstring
}.

(** [config.provider[name]]. *)
Record ProviderConfig := {
  provider_class : jsstring;
  defaultModel : option jsstring;
  api_keys : list jsstring
}.

(** The configuration: [server.api.key], and [provider], an object, as
    the list of its entries in the order of [Object.keys]. *)
Record Config := {
  server_api_key : jsstring;
  config_provider : list (jsstring * ProviderConfig)
}.

(** [config.provider[name]?.defaultModel]. *)
Fixpoint configuredModel (providers : list (jsstring * ProviderConfig))
    (providerName : jsstring) : option jsstring :=
  match providers with
  | [] => None
  | (n, c) :: rest =>
      if str_eqb providerName n then defaultModel c
      else configuredModel rest providerName
  end.

(** The provider manager and its providers, by their interface. *)
Class Registry (M Handle : Type) := {
  getProvider : jsstring -> M -> result Handle * M;
  provider_sendRequest : Handle -> Request -> M -> result Response * M;
  provider_getUsage : Handle -> M -> result json * M
}.

(** The reply of the [catch] blocks of the two endpoints. *)
Definition serverError (e : Error) : HttpReply :=
  {| http_status := 500;
     http_body :=
       ErrorBody (or_default (message e) (js "Internal server error"))
         (js "server_error")
         (Some match provider_error e with
               | Some pe => UpstreamDetail pe
               | None => ThrownDetail e
               end) |}.

Definition badRequest (text : jsstring) : HttpReply :=
  {| http_status := 400;
     http_body := ErrorBody text (js "invalid_request_error") None |}.

Section Endpoints.
Context {M Handle : Type} `{Registry M Handle}.

(** [POST /v1/chat/completions], after the middleware stored
    [providerName]. *)
Definition chatCompletions (config : Config) (providerName : jsstring)
    (body : ChatBody) (m : M) : HttpReply * M :=
  match body_messages body with
  | None => (badRequest (js "Missing required field: messages"), m)
  | Some msgs =>
      match getProvider providerName m with
      | (Throw e, m1) => (serverError e, m1)
      | (Ok provider, m1) =>
          let chosen :=
            match body_model body with
            | Some (c :: r) => Some (c :: r)
            | _ =>
                match configuredModel (config_provider config) providerName with
                | Some (c :: r) => Some (c :: r)
                | _ => None
                end
            end in
          match chosen with
          | None =>
              (badRequest (js "Missing required field: model (and no defaultModel configured)"),
               m1)
          | Some mdl =>
              let providerRequest :=
                {| model := mdl; messages := msgs;
                   temperature := body_temperature body;
                   max_tokens := body_max_tokens body;
                   tools := body_tools body;
                   tool_choice := body_tool_choice body |} in
              match provider_sendRequest provider providerRequest m1 with
              | (Ok response, m2) =>
                  ({| http_status := 200; http_body := ResponseBody response |}, m2)
              | (Throw e, m2) => (serverError e, m2)
              end
          end
      end
  end.

(** [GET /v1/usage]. *)
Definition usageEndpoint (providerName : jsstring) (m : M) : HttpReply * M :=
  match getProvider providerName m with
  | (Throw e, m1) => (serverError e, m1)
  | (Ok provider, m1) =>
      match provider_getUsage provider m1 with
      | (Ok info, m2) => ({| http_status := 200; http_body := UsageBody info |}, m2)
      | (Throw e, m2) => (serverError e, m2)
      end
  end.

End Endpoints.

(** ** ProviderTester *)

(** What is recorded for a provider that failed the test: the response
    that lacks the expected text, or the error that was caught (the
    entry's [error] field is the [message] of [details]). *)
Inductive FailedResponse :=
| Unexpected (response : Response)
| Errored (details : Error).

Record FailedEntry := {
  failed_provider : jsstring;
  failed_response : FailedResponse
}.

Record TestResult := {
  test_message : jsstring;
  failed : option (list FailedEntry)
}.

Definition maxPromptLength : nat := 100.

(** [response.choices?.[0]?.message?.content || ''], as far as
    [toLowerCase] can be called on it: a truthy content that is no
    string has no such method. *)
Definition actualContent (response : Response) : result jsstring :=
  match head (choices response) with
  | None => Ok []
  | Some c =>
      match reply_content (choice_message c) with
      | JString text => Ok text
      | other => if truthy other then Throw TypeError else Ok []
      end
  end.

Section ProviderTester.
Context `{P : Platform} {M Handle : Type} `{Registry M Handle}.

(** The request the tester sends: temperature 0.7, at most 150 tokens. *)
Definition testRequest (mdl prompt : jsstring) : Request :=
  {| model := mdl;
     messages := [{| role := js "user"; content := prompt;
                     name := None; tool_calls := None |}];
     temperature := Some 0x1.6666666666666p-1%float;
     max_tokens := Some 150%float;
     tools := None; tool_choice := None |}.

(** The body of the loop for one provider: the entry pushed to
    [failed], if any. *)
Definition testProvider (config : Config) (prompt expectedResponse : jsstring)
    (providerName : jsstring) (m : M) : option FailedEntry * M :=
  let caught (e : Error) :=
    Some {| failed_provider := providerName; failed_response := Errored e |} in
  match getProvider providerName m with
  | (Throw e, m1) => (caught e, m1)
  | (Ok provider, m1) =>
      match configuredModel (config_provider config) providerName with
      | Some (c :: r) =>
          match provider_sendRequest provider (testRequest (c :: r) prompt) m1 with
          | (Throw e, m2) => (caught e, m2)
          | (Ok response, m2) =>
              match actualContent response with
              | Throw e => (caught e, m2)
              | Ok text =>
                  if includes (toLowerCase text) (toLowerCase expectedResponse)
                  then (None, m2)
                  else (Some {| failed_provider := providerName;
                                failed_response := Unexpected response |}, m2)
              end
          end
      | _ =>
          (caught (new_Error (js "No defaultModel configured for provider: "
                                ++ providerName)), m1)
      end
  end.

(** The loop over the providers, in order. *)
Fixpoint testProviders (config : Config) (prompt expectedResponse : jsstring)
    (names : list jsstring) (m : M) : list FailedEntry * M :=
  match names with
  | [] => ([], m)
  | providerName :: rest =>
      let '(entry, m1) := testProvider config prompt expectedResponse providerName m in
      let '(entries, m2) := testProviders config prompt expectedResponse rest m1 in
      (match entry with
       | Some e => e :: entries
       | None => entries
       end, m2)
  end.

Definition testAllProviders (config : Config) (prompt expectedResponse : jsstring)
    (m : M) : result TestResult * M :=
  if (maxPromptLength <? length prompt)%nat then
    (Throw (new_Error (js "Prompt exceeds maximum length of "
                         ++ js (pretty (Z.of_nat maxPromptLength)) ++ js " characters")), m)
  else
    let availableProviders := map fst (config_provider config) in
    let '(entries, m1) :=
      testProviders config prompt expectedResponse availableProviders m in
    let totalProviders := js (pretty (Z.of_nat (length availableProviders))) in
    (Ok match entries with
        | [] => {| test_message := js "tested " ++ totalProviders ++ js " providers. all ok.";
                   failed := None |}
        | _ :: _ => {| test_message := js "tested " ++ totalProviders ++ js " providers.";
                       failed := Some entries |}
        end, m1).

End ProviderTester.

(** ** A reference platform

    An executable [Platform]: [JSON.parse] over the JSON grammar,
    [JSON.stringify] over JSON values, and a [toLowerCase] that folds
    the letters A to Z (the platform's function on text of code units
    below 128). The closed examples below run on it. *)

Module Ref.

Definition toLowerCase (s : jsstring) : jsstring :=
  map (fun c => if (65 <=? c) && (c <=? 90) then c + 32 else c)%N s.

(** *** Numbers *)

(** The binary64 value nearest to [m * 10 ^ e], ties to even, for
    [0 <= m]; [neg] is the sign. *)
Definition decimal_to_float (neg : bool) (m e : Z) : float :=
  let signed (z : Z) := if neg then - z else z in
  if m =? 0 then SF2Prim (SpecFloat.S754_zero neg)
  else if 0 <=? e then
    SF2Prim (SpecFloat.binary_normalize FloatOps.prec FloatOps.emax
               (signed (m * 10 ^ e)) 0 neg)
  else
    let d := 10 ^ (- e) in
    let s := Z.max 0 (Z.log2 d + 66 - Z.log2 m) in
    let q := Z.shiftl m s / d in
    let sticky := if Z.shiftl m s mod d =? 0 then 0 else 1 in
    SF2Prim (SpecFloat.binary_normalize FloatOps.prec FloatOps.emax
               (signed (2 * q + sticky)) (- s - 1) neg).

Definition isDigit (c : N) : bool := ((48 <=? c) && (c <=? 57))%N.

(** The leading decimal digits of [s], as the integer they write and
    their count, and the rest of [s]. *)
Fixpoint read_digits (acc : Z) (count : Z) (s : jsstring) : Z * Z * jsstring :=
  match s with
  | c :: r =>
      if isDigit c then read_digits (10 * acc + Z.of_N (c - 48)) (count + 1) r
      else (acc, count, s)
  | [] => (acc, count, s)
  end.

(** A JSON number at the start of [s]. *)
Definition read_number (s : jsstring) : option (float * jsstring) :=
  let '(neg, s1) := match s with
                    | 45%N :: r => (true, r)
                    | _ => (false, s)
                    end in
  let '(int, n_int, s2) := read_digits 0 0 s1 in
  let leading_zero := match s1 with
                      | 48%N :: _ => true
                      | _ => false
                      end in
  if (n_int =? 0) || (leading_zero && (1 <? n_int)) then None
  else
    let frac :=
      match s2 with
      | 46%N :: r =>
          let '(m, n_frac, s3) := read_digits int 0 r in
          if n_frac =? 0 then None else Some (m, n_frac, s3)
      | _ => Some (int, 0, s2)
      end in
    match frac with
    | None => None
    | Some (m, n_frac, s3) =>
        let after_e (r : jsstring) :=
          let '(eneg, r1) := match r with
                             | 45%N :: r' => (true, r')
                             | 43%N :: r' => (false, r')
                             | _ => (false, r)
                             end in
          let '(ex, n_ex, r2) := read_digits 0 0 r1 in
          if n_ex =? 0 then None
          else Some (decimal_to_float neg m ((if eneg then - ex else ex) - n_frac), r2) in
        match s3 with
        | 101%N :: r => after_e r
        | 69%N :: r => after_e r
        | _ => Some (decimal_to_float neg m (- n_frac), s3)
        end
    end.

(** [x / 10 ^ p] for [x = m * 2 ^ e], as a fraction of two positive
    integers. *)
Definition scaled (m e p : Z) : Z * Z :=
  (m * 2 ^ Z.max e 0 * 10 ^ Z.max (- p) 0, 2 ^ Z.max (- e) 0 * 10 ^ Z.max p 0).

(** The largest [d] with [10 ^ d <= m * 2 ^ e], searched upwards from
    [d]. *)
Fixpoint log10_from (steps : nat) (m e d : Z) : Z :=
  match steps with
  | O => d
  | S steps' =>
      let '(num, den) := scaled m e (d + 1) in
      if den <=? num then log10_from steps' m e (d + 1) else d
  end.

Definition floor_log10 (m e : Z) : Z :=
  log10_from 4 m e ((Z.log2 m + e) * 30103 / 100000 - 2).

(** The digits [s] and the exponent [p] of the decimal [s * 10 ^ p] of
    [k] digits that reads back as [x = m * 2 ^ e], the nearest to [x]
    if there are two. *)
Definition shortest_at (x : float) (m e d k : Z) : option (Z * Z) :=
  let p := d - k + 1 in
  let '(num, den) := scaled m e p in
  let lo := num / den in
  let rem := num - lo * den in
  let hi := if lo + 1 <? 10 ^ k then (lo + 1, p) else (10 ^ (k - 1), p + 1) in
  let reads '(s, q) := PrimFloat.eqb (decimal_to_float false s q) x in
  match reads (lo, p), reads hi with
  | true, true =>
      if rem =? 0 then Some (lo, p)
      else if 2 * rem <? den then Some (lo, p)
      else if den <? 2 * rem then Some hi
      else if Z.even lo then Some (lo, p) else Some hi
  | true, false => Some (lo, p)
  | false, true => Some hi
  | false, false => None
  end.

Fixpoint shortest_from (tries : nat) (x : float) (m e d k : Z) : Z * Z * Z :=
  match tries with
  | O => (m, e, k)
  | S tries' =>
      match shortest_at x m e d k with
      | Some (s, p) => (s, p, k)
      | None => shortest_from tries' x m e d (k + 1)
      end
  end.

Definition zeros (n : Z) : jsstring := repeat 48%N (Z.to_nat n).

(** [Number::toString] of a positive finite number with the digits [s]
    ([k] of them) and the exponent [n]. *)
Definition layout (s k n : Z) : jsstring :=
  let digits := js (pretty s) in
  if (k <=? n) && (n <=? 21) then digits ++ zeros (n - k)
  else if (0 <? n) && (n <=? 21) then
    take (Z.to_nat n) digits ++ js "." ++ drop (Z.to_nat n) digits
  else if (-6 <? n) && (n <=? 0) then js "0." ++ zeros (- n) ++ digits
  else
    let ex := (if n - 1 <? 0 then js "-" else js "+") ++ js (pretty (Z.abs (n - 1))) in
    if k =? 1 then digits ++ js "e" ++ ex
    else take 1 digits ++ js "." ++ drop 1 digits ++ js "e" ++ ex.

(** The text [JSON.stringify] writes for a number. *)
Definition number_text (x : float) : jsstring :=
  match Prim2SF x with
  | SpecFloat.S754_zero _ => js "0"
  | SpecFloat.S754_finite neg m e =>
      let d := floor_log10 (Z.pos m) e in
      let '(s, p, k) := shortest_from 17 (PrimFloat.abs x) (Z.pos m) e d 1 in
      (if neg then js "-" else []) ++ layout s k (p + k)
  | _ => js "null"
  end.

(** *** Strings *)

Definition hexValue (c : N) : option N :=
  (if isDigit c then Some (c - 48)
   else if (97 <=? c) && (c <=? 102) then Some (c - 87)
   else if (65 <=? c) && (c <=? 70) then Some (c - 55)
   else None)%N.

(** The code unit a one-letter escape stands for. *)
Definition escapeValue (c : N) : option N :=
  (if c =? 34 then Some 34 else if c =? 92 then Some 92
   else if c =? 47 then Some 47 else if c =? 98 then Some 8
   else if c =? 102 then Some 12 else if c =? 110 then Some 10
   else if c =? 114 then Some 13 else if c =? 116 then Some 9
   else None)%N.

(** A JSON string after its opening quote: its value and the text after
    the closing quote. *)
Fixpoint read_string (s : jsstring) : option (jsstring * jsstring) :=
  match s with
  | [] => None
  | c :: r =>
      if (c =? 34)%N then Some ([], r)
      else if (c =? 92)%N then
        match r with
        | [] => None
        | e :: r1 =>
            if (e =? 117)%N then
              match r1 with
              | h1 :: h2 :: h3 :: h4 :: r2 =>
                  match hexValue h1, hexValue h2, hexValue h3, hexValue h4,
                        read_string r2 with
                  | Some a, Some b, Some c', Some d, Some (v, rest) =>
                      Some ((4096 * a + 256 * b + 16 * c' + d)%N :: v, rest)
                  | _, _, _, _, _ => None
                  end
              | _ => None
              end
            else
              match escapeValue e, read_string r1 with
              | Some u, Some (v, rest) => Some (u :: v, rest)
              | _, _ => None
              end
        end
      else if (c <? 32)%N then None
      else
        match read_string r with
        | Some (v, rest) => Some (c :: v, rest)
        | None => None
        end
  end.

(** *** Values *)

Definition isJSONSpace (c : N) : bool :=
  ((c =? 32) || (c =? 9) || (c =? 10) || (c =? 13))%N.

Fixpoint skip (s : jsstring) : jsstring :=
  match s with
  | c :: r => if isJSONSpace c then skip r else s
  | [] => []
  end.

(** The number an array index name writes: a canonical decimal below
    [2 ^ 32 - 1]. *)
Definition arrayIndex (k : jsstring) : option Z :=
  match k with
  | [] => None
  | c :: r =>
      let '(v, n, rest) := read_digits 0 0 k in
      if bool_decide (rest = []) && negb ((c =? 48)%N && (1 <? n))
         && (v <? 4294967295) && (n <? 11)
      then Some v else None
  end.

(** The property list after [k] is set to [v], for a list that has its
    array indices first, in ascending order: an existing property keeps
    its place; a new one goes after the array indices below it, or at
    the end if its name is no array index. *)
Fixpoint define (k : jsstring) (v : json) (fields : list (jsstring * json))
  : list (jsstring * json) :=
  match fields with
  | [] => [(k, v)]
  | (k', v') :: rest =>
      if str_eqb k k' then (k, v) :: rest
      else
        match arrayIndex k, arrayIndex k' with
        | Some i, Some i' =>
            if i <? i' then (k, v) :: fields
            else (k', v') :: define k v rest
        | Some _, None => (k, v) :: fields
        | None, _ => (k', v') :: define k v rest
        end
  end.

(** A JSON value at the start of [s], after white space, and the text
    that follows it. [fuel] bounds the nesting and the number of
    elements; [parse] gives more than any text can use. *)
Fixpoint read_value (fuel : nat) (s : jsstring) : option (json * jsstring) :=
  match fuel with
  | O => None
  | S fuel' =>
      let elements :=
        fix elements (n : nat) (acc : list json) (s : jsstring)
          : option (json * jsstring) :=
          match n with
          | O => None
          | S n' =>
              match read_value fuel' s with
              | Some (v, r) =>
                  match skip r with
                  | c :: r' =>
                      if (c =? 44)%N then elements n' (v :: acc) r'
                      else if (c =? 93)%N then Some (JArray (rev (v :: acc)), r')
                      else None
                  | [] => None
                  end
              | None => None
              end
          end in
      let members :=
        fix members (n : nat) (acc : list (jsstring * json)) (s : jsstring)
          : option (json * jsstring) :=
          match n with
          | O => None
          | S n' =>
              match skip s with
              | q :: r =>
                  if (q =? 34)%N then
                    match read_string r with
                    | Some (k, r1) =>
                        match skip r1 with
                        | colon :: r2 =>
                            if (colon =? 58)%N then
                              match read_value fuel' r2 with
                              | Some (v, r3) =>
                                  match skip r3 with
                                  | c :: r4 =>
                                      if (c =? 44)%N then members n' (define k v acc) r4
                                      else if (c =? 125)%N then Some (JObject (define k v acc), r4)
                                      else None
                                  | [] => None
                                  end
                              | None => None
                              end
                            else None
                        | [] => None
                        end
                    | None => None
                    end
                  else None
              | [] => None
              end
          end in
      match skip s with
      | [] => None
      | c :: r =>
          if (c =? 123)%N then
            match skip r with
            | c' :: r' => if (c' =? 125)%N then Some (JObject [], r')
                          else members fuel' [] r
            | [] => None
            end
          else if (c =? 91)%N then
            match skip r with
            | c' :: r' => if (c' =? 93)%N then Some (JArray [], r')
                          else elements fuel' [] r
            | [] => None
            end
          else if (c =? 34)%N then
            match read_string r with
            | Some (v, rest) => Some (JString v, rest)
            | None => None
            end
          else if startsWith (js "true") (c :: r) then Some (JBool true, drop 4 (c :: r))
          else if startsWith (js "false") (c :: r) then Some (JBool false, drop 5 (c :: r))
          else if startsWith (js "null") (c :: r) then Some (JNull, drop 4 (c :: r))
          else
            match read_number (c :: r) with
            | Some (x, rest) => Some (JNumber x, rest)
            | None => None
            end
      end
  end.

Definition SyntaxError : Error :=
  {| message := None; code := None; provider_error := None |}.

(** [JSON.parse(text)]. *)
Definition parse (text : jsstring) : result json :=
  match read_value (S (length text)) text with
  | Some (v, rest) =>
      match skip rest with
      | [] => Ok v
      | _ :: _ => Throw SyntaxError
      end
  | None => Throw SyntaxError
  end.

(** *** [JSON.stringify] *)

Definition hexDigit (n : N) : N := (if n <? 10 then 48 + n else 87 + n)%N.

(** [\uXXXX] for the code unit [c]. *)
Definition unicodeEscape (c : N) : jsstring :=
  [92; 117; hexDigit (c / 4096); hexDigit (c / 256 mod 16);
   hexDigit (c / 16 mod 16); hexDigit (c mod 16)]%N.

Definition isLeadSurrogate (c : N) : bool := ((55296 <=? c) && (c <=? 56319))%N.
Definition isTrailSurrogate (c : N) : bool := ((56320 <=? c) && (c <=? 57343))%N.

(** The characters of a quoted string: the short escapes, [\uXXXX] for
    the other control characters and for lone surrogates. *)
Fixpoint quoteBody (s : jsstring) : jsstring :=
  match s with
  | [] => []
  | c :: r =>
      if (c =? 8)%N then js "\b" ++ quoteBody r
      else if (c =? 9)%N then js "\t" ++ quoteBody r
      else if (c =? 10)%N then js "\n" ++ quoteBody r
      else if (c =? 12)%N then js "\f" ++ quoteBody r
      else if (c =? 13)%N then js "\r" ++ quoteBody r
      else if (c =? 34)%N then [92; 34]%N ++ quoteBody r
      else if (c =? 92)%N then [92; 92]%N ++ quoteBody r
      else if (c <? 32)%N then unicodeEscape c ++ quoteBody r
      else if isLeadSurrogate c then
        match r with
        | d :: r' =>
            if isTrailSurrogate d then c :: d :: quoteBody r'
            else unicodeEscape c ++ quoteBody r
        | [] => unicodeEscape c
        end
      else if isTrailSurrogate c then unicodeEscape c ++ quoteBody r
      else c :: quoteBody r
  end.

Definition quote (s : jsstring) : jsstring := [34%N] ++ quoteBody s ++ [34%N].

Fixpoint stringify (v : json) : jsstring :=
  match v with
  | JNull => js "null"
  | JBool true => js "true"
  | JBool false => js "false"
  | JNumber x => number_text x
  | JString s => quote s
  | JArray items => js "[" ++ join (js ",") (map stringify items) ++ js "]"
  | JObject fields =>
      js "{" ++ join (js ",")
                  (map (fun kv => quote (fst kv) ++ js ":" ++ stringify (snd kv)) fields)
        ++ js "}"
  end.

End Ref.

#[global] Instance RefPlatform : Platform :=
  {| JSON_parse := Ref.parse;
     JSON_stringify := Ref.stringify;
     toLowerCase := Ref.toLowerCase |}.

(** ** A scripted world

    A world for closed examples: the clock advances by one millisecond
    at each reading, and the upstream gives the scripted replies in
    order (and refuses the connection when the script has run out). *)

Record Script := {
  clock : Z;
  chat_replies : list (upstream jsstring);
  create_replies : list (upstream Response)
}.

Definition refused : ProviderError :=
  {| pe_message := Some (js "fetch failed"); status := None; error := None |}.

#[global] Instance ScriptWorld : World Script :=
  {| Date_now := fun w =>
       (clock w, {| clock := clock w + 1; chat_replies := chat_replies w;
                    create_replies := create_replies w |});
     ollama_chat := fun _ w =>
       match chat_replies w with
       | r :: rest => (r, {| clock := clock w; chat_replies := rest;
                             create_replies := create_replies w |})
       | [] => (Failed refused, w)
       end;
     openai_create := fun _ w =>
       match create_replies w with
       | r :: rest => (r, {| clock := clock w; chat_replies := chat_replies w;
                             create_replies := rest |})
       | [] => (Failed refused, w)
       end |}.

(** ** Providers and inputs of the closed examples *)


Definition three_keys : list jsstring := [js "key-1"; js "key-2"; js "key-3"].

Definition fresh_rotator : KeyRotator :=
  {| currentKeyIndex := -1; keys := three_keys |}.

(** What the upstream throws on an exceeded quota, and on a rejected
    credential. *)
Definition quota_failure : ProviderError :=
  {| pe_message := Some (js "quota exceeded"); status := Some 429;
     error := Some (js "quota exceeded") |}.

Definition unauthorized_failure : ProviderError :=
  {| pe_message := Some (js "unauthorized"); status := Some 401;
     error := Some (js "unauthorized") |}.

Definition user_turn (text : jsstring) : ChatMessage :=
  {| role := js "user"; content := text; name := None; tool_calls := None |}.

Definition system_turn (text : jsstring) : ChatMessage :=
  {| role := js "system"; content := text; name := None; tool_calls := None |}.

(** The tool schema of the specification's round trip:
    [{name: websearch, parameters: {q: string, required: [q]}}]. *)
Definition websearch : ToolFunction :=
  {| fn_name := js "websearch";
     fn_description := Some (js "Search the web");
     fn_parameters :=
       Some {| properties :=
                 Some (JObject [(js "q", JObject [(js "type", JString (js "string"))])]);
               required := Some (JArray [JString (js "q")]) |} |}.

Definition plain_request : Request :=
  {| model := js "gpt-oss:20b-cloud";
     messages := [user_turn (js "What is the weather?")];
     temperature := None; max_tokens := None;
     tools := None; tool_choice := None |}.

Definition websearch_request : Request :=
  {| model := js "gpt-oss:20b-cloud";
     messages := [user_turn (js "What is the weather?")];
     temperature := None; max_tokens := None;
     tools := Some [websearch]; tool_choice := None |}.

(** A world in which the upstream gives [replies], at 1700000000000 ms. *)
Definition world_of (replies : list (upstream jsstring)) : Script :=
  {| clock := 1700000000000; chat_replies := replies; create_replies := [] |}.

(** Model outputs: a tool call, a tool call with [null] arguments, an
    empty final answer, and prose. *)
Definition websearch_call : jsstring :=
  jsq "{`tool`:`websearch`,`arguments`:{`q`:`weather`}}".

Definition null_arguments_call : jsstring :=
  jsq "{`tool`:`websearch`,`arguments`:null}".

Definition empty_final : jsstring := jsq "{`final`: ``}".

Definition prose : jsstring := js "It is sunny today.".

(** A final answer inside a fenced code block, after some prose. *)
Definition fenced_final : jsstring :=
  js "Here you go:" ++ NL ++ FENCE ++ js "json" ++ NL
    ++ jsq "{`final`:`hello`}" ++ NL ++ FENCE.

Definition three_quota_failures : Script :=
  world_of [Failed quota_failure; Failed quota_failure; Failed quota_failure].



(** An OpenAI upstream that throttles the first call and would answer
    the second. *)
Definition throttled_then_ok : Script :=
  {| clock := 1700000000000; chat_replies := [];
     create_replies :=
       [Failed quota_failure;
        Replied (plainReply 1700000000000 (js "gpt-4o") (JString (js "hello")))] |}.

(** A final answer after some prose, whose text quotes a fenced block
    that is not JSON. *)
Definition final_quoting_fence : jsstring :=
  js "Answer: " ++ jsq "{`final`:`see " ++ FENCE ++ js "{x}" ++ FENCE ++ jsq " ok`}".

(** A registry for the examples of the HTTP boundary: a provider
    answers a request with the text of its first message, and the
    provider [ghost] fails to load. The state counts the requests sent. *)
Definition echo_response (request : Request) : Response :=
  {| response_id := js "echo-1";
     response_model := model request;
     choices :=
       [{| choice_index := 0;
           choice_message :=
             {| reply_role := js "assistant";
                reply_content :=
                  match messages request with
                  | first :: _ => JString (content first)
                  | [] => JNull
                  end;
                reply_tool_calls := None |};
           finish_reason := js "stop" |}];
     usage := {| prompt_tokens := 0; completion_tokens := 0; total_tokens := 0 |} |}.

#[global] Instance EchoRegistry : Registry nat jsstring :=
  {| getProvider providerName sent :=
       if str_eqb providerName (js "ghost") then
         (Throw (new_Error (js "Provider ghost not found in config")), sent)
       else (Ok providerName, sent);
     provider_sendRequest provider request sent :=
       (Ok (echo_response request), S sent);
     provider_getUsage provider sent := (Ok JNull, sent) |}.

Definition echo_config : Config :=
  {| server_api_key := js "secret";
     config_provider :=
       [(js "echo", {| provider_class := js "ollamacloud";
                       defaultModel := Some (js "gpt-oss:120b");
                       api_keys := [js "key-1"] |})] |}.

(** The same with a second provider that names no default model. *)
Definition two_provider_config : Config :=
  {| server_api_key := js "secret";
     config_provider :=
       [(js "echo", {| provider_class := js "ollamacloud";
                       defaultModel := Some (js "gpt-oss:120b");
                       api_keys := [js "key-1"] |});
        (js "bare", {| provider_class := js "openai";
                       defaultModel := None;
                       api_keys := [js "key-2"] |})] |}.

Definition chat_body (mdl : option jsstring) (msgs : option (list ChatMessage))
  : ChatBody :=
  {| body_provider := None; body_model := mdl; body_messages := msgs;
     body_temperature := None; body_max_tokens := None;
     body_tools := None; body_tool_choice := None |}.


Definition bare_failed : FailedEntry :=
  {| failed_provider := js "bare";
     failed_response :=
       Errored (new_Error (js "No defaultModel configured for provider: bare")) |}.

Definition bare_report : TestResult :=
  {| test_message := js "tested 2 providers."; failed := Some [bare_failed] |}.

(** ** Instruction injection as the specification words it

    The instruction is appended to the existing leading system message
    when the list contains a system message, and is otherwise inserted
    as one new system message at the front. *)
Definition injects_into_leading (msgs : list ChatMessage) (instruction : jsstring)
    (out : list ChatMessage) : Prop :=
  if existsb isSystem msgs then
    exists m0 rest,
      msgs = m0 :: rest /\ isSystem m0 = true /\
      out = withInstruction instruction m0 :: rest
  else out = systemMessage instruction :: msgs.

(** ** The classifier as the specification words it

    Transient when the error carries status 429, 502, 503 or 504, or
    when its text or its nested provider payload contains one of the
    seven phrases; one rule for every adapter. *)

Definition transient_statuses : list Z := [429; 502; 503; 504].

Definition transient_phrases : list jsstring :=
  [js "quota"; js "rate limit"; js "too many requests"; js "upstream error";
   js "bad gateway"; js "service unavailable"; js "gateway timeout"].

Definition payload_phrases : list jsstring := [js "quota"; js "rate limit"].

Definition includes_any (text : option jsstring) (phrases : list jsstring) : bool :=
  match text with
  | Some text => existsb (includes text) phrases
  | None => false
  end.

Definition has_status (e : Error) (codes : list Z) : bool :=
  match provider_error e ≫= status with
  | Some n => existsb (Z.eqb n) codes
  | None => false
  end.

Definition spec_classify (e : Error) : bool :=
  has_status e transient_statuses
  || includes_any (message e) transient_phrases
  || includes_any (provider_error e ≫= error) transient_phrases.

(** * Properties *)

(** ** KeyRotator *)

Lemma index_nonneg {A} (l : list A) (i : Z) :
  0 <= i -> index l i = l !! Z.to_nat i.
Proof.
  intros Hi. unfold index.
  destruct (Z.ltb_spec i 0) as [Hneg | _]; [lia | reflexivity].
Qed.

Lemma new_KeyRotator_Ok (ks : list jsstring) (r : KeyRotator) :
  new_KeyRotator ks = Ok r ->
  ks <> [] /\ r = {| currentKeyIndex := -1; keys := ks |}.
Proof.
  unfold new_KeyRotator.
  destruct (Z.eqb_spec (Z.of_nat (length ks)) 0) as [Hlen | Hlen]; [discriminate |].
  intros [= <-]. split; [| reflexivity].
  intros ->. apply Hlen. reflexivity.
Qed.

Lemma new_KeyRotator_ok (ks : list jsstring) (r : KeyRotator) :
  new_KeyRotator ks = Ok r -> rotator_ok r /\ keys r = ks /\ currentKeyIndex r = -1.
Proof.
  intros [Hne ->]%new_KeyRotator_Ok. unfold rotator_ok. simpl.
  repeat split; try done. lia.
Qed.

Lemma length_pos_of_ne {A} (l : list A) : l <> [] -> 0 < Z.of_nat (length l).
Proof. destruct l; [done | simpl; lia]. Qed.

(** One rotation step: the pool is kept, the cursor moves by one modulo
    the pool size, and the key returned is the one under the new
    cursor. *)
Lemma getNextKey_step (r : KeyRotator) :
  rotator_ok r ->
  keys (snd (getNextKey r)) = keys r /\
  currentKeyIndex (snd (getNextKey r))
    = (currentKeyIndex r + 1) mod Z.of_nat (length (keys r)) /\
  fst (getNextKey r) = keys r !! Z.to_nat (currentKeyIndex (snd (getNextKey r))) /\
  rotator_ok (snd (getNextKey r)).
Proof.
  intros [Hne Hc]. pose proof (length_pos_of_ne _ Hne) as Hpos.
  unfold getNextKey, rotator_ok. simpl.
  rewrite Z.rem_mod_nonneg by lia.
  pose proof (Z.mod_pos_bound (currentKeyIndex r + 1) (Z.of_nat (length (keys r))) Hpos).
  repeat split; try done; try lia.
  apply index_nonneg. lia.
Qed.

Lemma getNextKey_times_S (n : nat) (r : KeyRotator) :
  getNextKey_times (S n) r
  = (fst (getNextKey r) :: fst (getNextKey_times n (snd (getNextKey r))),
     snd (getNextKey_times n (snd (getNextKey r)))).
Proof.
  cbn [getNextKey_times]. destruct (getNextKey r) as [k r1]. cbn [fst snd].
  destruct (getNextKey_times n r1) as [ks r2]. reflexivity.
Qed.

Lemma getNextKey_times_ok (n : nat) (r : KeyRotator) :
  rotator_ok r ->
  rotator_ok (snd (getNextKey_times n r)) /\
  keys (snd (getNextKey_times n r)) = keys r.
Proof.
  revert r. induction n as [| n IH]; intros r Hok; [done |].
  rewrite getNextKey_times_S. cbn [snd].
  destruct (getNextKey_step r Hok) as (Hkeys & _ & _ & Hok1).
  destruct (IH _ Hok1) as [Hok2 Hkeys2].
  split; [done | congruence].
Qed.

(** The keys [n] consecutive calls return: the pool read cyclically from
    the position after the cursor. *)
Lemma getNextKey_times_keys (n : nat) (r : KeyRotator) :
  rotator_ok r ->
  fst (getNextKey_times n r)
  = map (fun j => keys r !! ((Z.to_nat (currentKeyIndex r + 1) + j) `mod` length (keys r))%nat)
        (seq 0 n).
Proof.
  revert r. induction n as [| n IH]; intros r Hok; [done |].
  rewrite getNextKey_times_S. cbn [fst].
  destruct (getNextKey_step r Hok) as (Hkeys & Hcur & Hkey & Hok1).
  specialize (IH _ Hok1).
  set (r1 := snd (getNextKey r)) in *.
  destruct Hok as [Hne Hc]. pose proof (length_pos_of_ne _ Hne) as Hpos.
  assert (Hnn : 0 <= currentKeyIndex r1).
  { rewrite Hcur. apply Z.mod_pos_bound. lia. }
  assert (Hnat : Z.to_nat (currentKeyIndex r1)
                 = (Z.to_nat (currentKeyIndex r + 1) `mod` length (keys r))%nat).
  { rewrite Hcur. apply Nat2Z.inj. rewrite Nat2Z.inj_mod, !Z2Nat.id; lia. }
  cbn [seq map]. f_equal.
  - rewrite Hkey, Hnat. f_equal. f_equal. lia.
  - rewrite IH, <- seq_shift, map_map. apply map_ext. intros j.
    rewrite Hkeys. f_equal.
    replace (Z.to_nat (currentKeyIndex r1 + 1))
      with (S (Z.to_nat (currentKeyIndex r1))) by lia.
    rewrite Hnat.
    replace (S (Z.to_nat (currentKeyIndex r + 1) `mod` length (keys r)) + j)%nat
      with (Z.to_nat (currentKeyIndex r + 1) `mod` length (keys r) + S j)%nat by lia.
    rewrite Nat.Div0.add_mod_idemp_l. reflexivity.
Qed.

(** A full round of calls reads the pool rotated to the position after
    the cursor: every pool position once. *)
Lemma getNextKey_round (r : KeyRotator) :
  rotator_ok r ->
  fst (getNextKey_times (length (keys r)) r)
  = map Some (rotate (Z.to_nat (currentKeyIndex r + 1)) (keys r)).
Proof.
  intros Hok. rewrite getNextKey_times_keys by done.
  destruct Hok as [Hne Hc]. pose proof (length_pos_of_ne _ Hne) as Hpos.
  apply list_eq. intros i.
  rewrite !list_lookup_fmap.
  destruct (decide (i < length (keys r))%nat) as [Hi | Hi].
  - rewrite lookup_seq_lt by done. simpl.
    rewrite lookup_rotate_r by done.
    unfold rotate_nat_add.
    assert (Hidx : Z.to_nat ((Z.of_nat (Z.to_nat (currentKeyIndex r + 1)) + Z.of_nat i)
                               `mod` Z.of_nat (length (keys r)))
                   = ((Z.to_nat (currentKeyIndex r + 1) + i) `mod` length (keys r))%nat).
    { apply Nat2Z.inj. rewrite Nat2Z.inj_mod, Z2Nat.id, Nat2Z.inj_add; [done |].
      apply Z.mod_pos_bound. lia. }
    rewrite Hidx.
    destruct (lookup_lt_is_Some_2 (keys r)
                ((Z.to_nat (currentKeyIndex r + 1) + i) `mod` length (keys r))%nat)
      as [x Hx].
    { apply Nat.mod_upper_bound. lia. }
    rewrite Hx. reflexivity.
  - rewrite lookup_seq_ge by lia.
    rewrite (lookup_ge_None_2 (rotate _ _)); [done |].
    rewrite length_rotate. lia.
Qed.

(** C3. On a freshly constructed rotator over a pool of [N] keys, [N]
    consecutive [getNextKey] calls return the keys of the pool in pool
    order, each position once; the call after them returns the first key
    again; and every call, however many came before, moves the cursor by
    one modulo [N]. *)
Theorem KeyRotator_round_robin (ks : list jsstring) (r : KeyRotator) :
  new_KeyRotator ks = Ok r ->
  fst (getNextKey_times (length ks) r) = map Some ks /\
  fst (getNextKey_times (S (length ks)) r) = map Some ks ++ [head ks] /\
  forall n : nat,
    let r_n := snd (getNextKey_times n r) in
    currentKeyIndex (snd (getNextKey r_n))
    = (currentKeyIndex r_n + 1) mod Z.of_nat (length ks).
Proof.
  intros (Hok & Hkeys & Hcur)%new_KeyRotator_ok.
  assert (Hround : fst (getNextKey_times (length ks) r) = map Some ks).
  { rewrite <- Hkeys at 1. rewrite getNextKey_round by done.
    rewrite Hcur, Hkeys. cbn [Z.add Z.to_nat Z.opp Z.pos_sub].
    unfold rotate. rewrite Nat.Div0.mod_0_l, drop_0, take_0, app_nil_r.
    reflexivity. }
  split; [exact Hround |]. split.
  - rewrite getNextKey_times_keys, seq_S, map_app by done.
    rewrite <- getNextKey_times_keys, Hkeys, Hround by done.
    f_equal. cbn [map]. rewrite Hcur. cbn [Z.add Z.to_nat Z.opp Z.pos_sub Nat.add].
    rewrite Nat.Div0.mod_same, head_lookup. reflexivity.
  - intros n r_n. subst r_n.
    destruct (getNextKey_times_ok n r Hok) as [Hokn Hkeysn].
    destruct (getNextKey_step _ Hokn) as (_ & Hstep & _).
    rewrite Hstep, Hkeysn, Hkeys. reflexivity.
Qed.

Lemma KeyRotator_round_robin_witness :
  fst (getNextKey_times 3 fresh_rotator) = map Some three_keys /\
  fst (getNextKey_times 4 fresh_rotator) = map Some three_keys ++ [Some (js "key-1")] /\
  currentKeyIndex (snd (getNextKey (snd (getNextKey_times 7 fresh_rotator))))
  = (currentKeyIndex (snd (getNextKey_times 7 fresh_rotator)) + 1) mod 3.
Proof.
  destruct (KeyRotator_round_robin three_keys fresh_rotator eq_refl)
    as (Hround & Hwrap & Hstep).
  split; [exact Hround | split; [exact Hwrap | exact (Hstep 7%nat)]].
Defined.

(** Before any rotation the cursor is outside the pool, and
    [getCurrentKey] returns [undefined]. *)
Lemma getCurrentKey_unset (ks : list jsstring) (r : KeyRotator) :
  new_KeyRotator ks = Ok r -> getCurrentKey r = None.
Proof. intros [_ ->]%new_KeyRotator_Ok. reflexivity. Qed.

(** C8. [getCurrentKey] on a rotator that was just constructed over
    three keys returns normally, and its value is [undefined]: no error
    is raised. *)
Theorem getCurrentKey_fresh_undefined :
  new_KeyRotator three_keys ≫= (fun r => Ok (getCurrentKey r)) = Ok None.
Proof. reflexivity. Qed.

(** ** The retry loop *)

Section RetryLoop.
Context {W : Type} `{A : Adapter W}.

Lemma retryLoop_S (n : nat) (lastError : option Error) (request : Request)
    (kr : KeyRotator) (w : W) :
  retryLoop (S n) lastError request kr w
  = let this := {| attempt_key := fst (getNextKey kr);
                   attempt_index := getCurrentIndex (snd (getNextKey kr));
                   attempt_result := fst (doSendRequest (fst (getNextKey kr)) request w) |} in
    match fst (doSendRequest (fst (getNextKey kr)) request w) with
    | Ok response =>
        (Resolved response, [this], snd (getNextKey kr),
         snd (doSendRequest (fst (getNextKey kr)) request w))
    | Throw e =>
        if isQuotaExceededError e then
          let '(out, rest, kr2, w2) :=
            retryLoop n (Some e) request (snd (getNextKey kr))
              (snd (doSendRequest (fst (getNextKey kr)) request w)) in
          (out, this :: rest, kr2, w2)
        else (Rejected (Some e), [this], snd (getNextKey kr),
              snd (doSendRequest (fst (getNextKey kr)) request w))
    end.
Proof.
  cbn [retryLoop]. destruct (getNextKey kr) as [k kr1]. cbn [fst snd].
  destruct (doSendRequest k request w) as [res w1]. cbn [fst snd].
  destruct res; reflexivity.
Qed.



(** C2. When the first adapter call of a [sendRequest] fails with an
    error that is not classified as quota/transient, the call makes that
    one attempt and throws that error: the adapter is not called with
    any other credential, and the cursor has moved by one position. *)
Theorem sendRequest_fatal_first (request : Request) (kr : KeyRotator) (w w1 : W)
    (e : Error) :
  keys kr <> [] ->
  doSendRequest (fst (getNextKey kr)) request w = (Throw e, w1) ->
  isQuotaExceededError e = false ->
  sendRequest request kr w
  = (Rejected (Some e),
     [{| attempt_key := fst (getNextKey kr);
         attempt_index := getCurrentIndex (snd (getNextKey kr));
         attempt_result := Throw e |}],
     snd (getNextKey kr), w1).
Proof.
  intros Hne Hcall Hfatal. unfold sendRequest, getKeyCount.
  rewrite Nat2Z.id. destruct (keys kr) as [| k ks] eqn:Hkeys; [done |].
  cbn [length]. rewrite retryLoop_S, Hcall. cbn [fst snd]. cbv zeta.
  rewrite Hfatal. reflexivity.
Qed.

End RetryLoop.



Lemma sendRequest_fatal_first_witness :
  @sendRequest Script (OllamaCloudProvider None) plain_request fresh_rotator
    (world_of [Failed unauthorized_failure; Replied (js "hello")])
  = (Rejected (Some (OllamaCloud_wrap unauthorized_failure)),
     [{| attempt_key := Some (js "key-1"); attempt_index := 0;
         attempt_result := Throw (OllamaCloud_wrap unauthorized_failure) |}],
     {| currentKeyIndex := 0; keys := three_keys |},
     world_of [Replied (js "hello")]).
Proof.
  apply (sendRequest_fatal_first (A := OllamaCloudProvider None)
           plain_request fresh_rotator
           (world_of [Failed unauthorized_failure; Replied (js "hello")])
           (world_of [Replied (js "hello")])
           (OllamaCloud_wrap unauthorized_failure)).
  - discriminate.
  - reflexivity.
  - reflexivity.
Defined.


(** ** Instruction injection *)

Lemma isSystem_withInstruction (instruction : jsstring) (m : ChatMessage) :
  isSystem (withInstruction instruction m) = isSystem m.
Proof. reflexivity. Qed.

Lemma filter_system_inject (instruction : jsstring) (msgs : list ChatMessage) :
  List.filter isSystem
    (map (fun m => if isSystem m then withInstruction instruction m else m) msgs)
  = map (withInstruction instruction) (List.filter isSystem msgs).
Proof.
  induction msgs as [| m msgs IH]; [reflexivity |].
  cbn [map List.filter]. destruct (isSystem m) eqn:Hm.
  - rewrite isSystem_withInstruction, Hm. cbn [map]. f_equal. exact IH.
  - rewrite Hm. exact IH.
Qed.

Lemma filter_others_inject (instruction : jsstring) (msgs : list ChatMessage) :
  List.filter (fun m => negb (isSystem m))
    (map (fun m => if isSystem m then withInstruction instruction m else m) msgs)
  = List.filter (fun m => negb (isSystem m)) msgs.
Proof.
  induction msgs as [| m msgs IH]; [reflexivity |].
  cbn [map List.filter]. destruct (isSystem m) eqn:Hm.
  - rewrite isSystem_withInstruction, Hm. exact IH.
  - rewrite Hm. cbn [negb]. f_equal. exact IH.
Qed.

Lemma filter_system_none (msgs : list ChatMessage) :
  existsb isSystem msgs = false -> List.filter isSystem msgs = [].
Proof.
  induction msgs as [| m msgs IH]; [reflexivity |].
  cbn [existsb List.filter]. intros [Hm Hrest]%orb_false_iff.
  rewrite Hm. auto.
Qed.

Lemma filter_system_some (msgs : list ChatMessage) :
  existsb isSystem msgs = true -> List.filter isSystem msgs <> [].
Proof.
  induction msgs as [| m msgs IH]; [discriminate |].
  cbn [existsb List.filter]. destruct (isSystem m); [discriminate |].
  exact IH.
Qed.

Lemma filter_others_all (msgs : list ChatMessage) :
  existsb isSystem msgs = false ->
  List.filter (fun m => negb (isSystem m)) msgs = msgs.
Proof.
  induction msgs as [| m msgs IH]; [reflexivity |].
  cbn [existsb List.filter]. intros [Hm Hrest]%orb_false_iff.
  rewrite Hm. cbn [negb]. f_equal. auto.
Qed.

(** C5 (amended). Injection appends the instruction, after a blank line,
    to the content of every system message of the list, wherever it
    stands, when there is one, and otherwise puts one new system message
    in front. In both cases no system message is added to a list that
    has one, every message of the caller that is not a system message
    is kept unchanged and in order, and the roles of the caller's
    messages keep their positions. A list whose only system message is
    its first gets the instruction in that message. *)
Theorem injectToolInstruction_systems (msgs : list ChatMessage) (instruction : jsstring) :
  let out := injectToolInstruction msgs instruction in
  List.filter isSystem out
  = (if existsb isSystem msgs
     then map (withInstruction instruction) (List.filter isSystem msgs)
     else [systemMessage instruction]) /\
  length (List.filter isSystem out) = Nat.max 1 (length (List.filter isSystem msgs)) /\
  List.filter (fun m => negb (isSystem m)) out
  = List.filter (fun m => negb (isSystem m)) msgs /\
  map role (drop (length out - length msgs) out) = map role msgs /\
  (forall m0 rest,
      msgs = m0 :: rest -> isSystem m0 = true -> existsb isSystem rest = false ->
      out = withInstruction instruction m0 :: rest).
Proof.
  intros out. subst out. unfold injectToolInstruction.
  destruct (existsb isSystem msgs) eqn:Hsys.
  - rewrite filter_system_inject, filter_others_inject, !length_map.
    repeat split; try reflexivity.
    + pose proof (filter_system_some msgs Hsys) as Hne.
      destruct (List.filter isSystem msgs); [done | cbn [length]; lia].
    + rewrite Nat.sub_diag, drop_0, map_map. apply map_ext.
      intros m. destruct (isSystem m); reflexivity.
    + intros m0 rest -> Hm0 Hrest. cbn [map]. rewrite Hm0. f_equal.
      clear Hsys. induction rest as [| m rest IH]; [reflexivity |].
      cbn [existsb] in Hrest. apply orb_false_iff in Hrest as [Hm Hrest].
      cbn [map]. rewrite Hm. f_equal. auto.
  - cbn [List.filter length]. change (isSystem (systemMessage instruction)) with true.
    cbn [negb]. rewrite (filter_system_none msgs Hsys).
    repeat split; try reflexivity.
    + replace (S (length msgs) - length msgs)%nat with 1%nat by lia. reflexivity.
    + intros m0 rest -> Hm0 _. cbn [existsb] in Hsys. rewrite Hm0 in Hsys. discriminate.
Qed.

Lemma injectToolInstruction_systems_witness :
  injectToolInstruction [system_turn (js "Be brief."); user_turn (js "Hi")] (js "TOOLS")
  = [system_turn (js "Be brief." ++ NL ++ NL ++ js "TOOLS"); user_turn (js "Hi")].
Proof.
  destruct (injectToolInstruction_systems
              [system_turn (js "Be brief."); user_turn (js "Hi")] (js "TOOLS"))
    as (_ & _ & _ & _ & Hleading).
  apply (Hleading (system_turn (js "Be brief.")) [user_turn (js "Hi")]);
    reflexivity.
Defined.

(** C5, as stated, fails on a list whose system message is not its
    first message, and on a list with two system messages: the
    instruction goes into a system message that does not lead the list,
    and into both system messages. *)
Lemma injectToolInstruction_not_leading :
  injectToolInstruction [user_turn (js "Hi"); system_turn (js "Be brief.")] (js "TOOLS")
  = [user_turn (js "Hi"); system_turn (js "Be brief." ++ NL ++ NL ++ js "TOOLS")] /\
  ~ injects_into_leading [user_turn (js "Hi"); system_turn (js "Be brief.")] (js "TOOLS")
      (injectToolInstruction [user_turn (js "Hi"); system_turn (js "Be brief.")] (js "TOOLS")) /\
  injectToolInstruction
    [system_turn (js "A"); user_turn (js "Hi"); system_turn (js "B")] (js "TOOLS")
  = [system_turn (js "A" ++ NL ++ NL ++ js "TOOLS"); user_turn (js "Hi");
     system_turn (js "B" ++ NL ++ NL ++ js "TOOLS")] /\
  ~ injects_into_leading
      [system_turn (js "A"); user_turn (js "Hi"); system_turn (js "B")] (js "TOOLS")
      (injectToolInstruction
         [system_turn (js "A"); user_turn (js "Hi"); system_turn (js "B")] (js "TOOLS")).
Proof.
  split; [reflexivity |]. split.
  { intros (m0 & rest & Hmsgs & Hm0 & _). injection Hmsgs as <- _. discriminate Hm0. }
  split; [reflexivity |].
  intros (m0 & rest & Hmsgs & _ & Hout). injection Hmsgs as <- <-.
  discriminate Hout.
Qed.

(** ** The error classifiers *)

Lemma bool_decide_Some_Z (n k : Z) : bool_decide (Some n = Some k) = (n =? k).
Proof.
  destruct (Z.eqb_spec n k) as [-> | Hne].
  - apply bool_decide_eq_true. reflexivity.
  - apply bool_decide_eq_false. intros [= ?]. contradiction.
Qed.

Lemma bool_decide_None_Z (k : Z) : bool_decide (@None Z = Some k) = false.
Proof. apply bool_decide_eq_false. discriminate. Qed.

Lemma classifier_chain (a1 a2 a3 a4 a5 a6 a7 s1 s2 s3 s4 p1 p2 : bool) :
  (if a1 || a2 || a3 then true
   else if s1 then true
   else if s2 || s3 || s4 then true
   else if a4 || a5 || a6 || a7 then true
   else if p1 || p2 then true
   else false)
  = (s1 || (s2 || (s3 || (s4 || false))))
    || (a1 || (a2 || (a3 || (a4 || (a5 || (a6 || (a7 || false)))))))
    || (p1 || (p2 || false)).
Proof.
  destruct a1, a2, a3, s1, s2, s3, s4, a4, a5, a6, a7, p1, p2; reflexivity.
Qed.

Lemma includes_nil (needle : jsstring) : needle <> [] -> includes [] needle = false.
Proof. destruct needle; [done | reflexivity]. Qed.

(** C7 (amended). The OllamaCloud classifier returns transient exactly
    when the nested provider error carries status 429, 502, 503 or 504,
    or the lower-cased error text contains one of the seven phrases, or
    the nested provider error payload contains, as written, [quota] or
    [rate limit]; the OpenAI classifier returns transient exactly when
    the error's code is [quota_exceeded]. Every other error is fatal. *)
Theorem classifiers_characterised `{Platform} (e : Error) :
  OllamaCloud_isQuotaExceededError e
  = (has_status e transient_statuses
     || includes_any (toLowerCase <$> message e) transient_phrases
     || includes_any (provider_error e ≫= error) payload_phrases) /\
  (OpenAI_isQuotaExceededError e = true <-> code e = Some (js "quota_exceeded")).
Proof.
  split.
  - unfold OllamaCloud_isQuotaExceededError, has_status, includes_any,
      transient_statuses, transient_phrases, payload_phrases.
    destruct (provider_error e) as [pe |]; cbn [mbind option_bind].
    + destruct (status pe) as [n |]; destruct (error pe) as [text |];
        destruct (message e) as [m |];
        cbn [fmap option_fmap option_map existsb];
        rewrite ?bool_decide_Some_Z, ?bool_decide_None_Z, ?includes_nil
          by discriminate;
        (etransitivity; [apply classifier_chain | reflexivity]).
    + destruct (message e) as [m |];
        cbn [fmap option_fmap option_map existsb];
        rewrite ?bool_decide_None_Z, ?includes_nil by discriminate;
        (etransitivity; [apply classifier_chain | reflexivity]).
  - unfold OpenAI_isQuotaExceededError. apply bool_decide_eq_true.
Qed.

(** C7, as stated, fails for both adapters: the OpenAI classifier takes
    an error with status 429 for fatal, and the OllamaCloud classifier
    takes an error whose provider payload reads [bad gateway] for fatal;
    the rule of the specification takes both for transient. *)
Lemma classifiers_differ_from_spec :
  let throttled :=
    {| message := Some (js "Failed to connect to OpenAI: slow down");
       code := None;
       provider_error := Some {| pe_message := Some (js "slow down");
                                 status := Some 429; error := None |} |} in
  let gateway :=
    {| message := Some (js "Failed to connect to OllamaCloud: try again");
       code := None;
       provider_error := Some {| pe_message := Some (js "try again");
                                 status := None;
                                 error := Some (js "bad gateway") |} |} in
  spec_classify throttled = true /\
  OpenAI_isQuotaExceededError throttled = false /\
  spec_classify gateway = true /\
  @OllamaCloud_isQuotaExceededError RefPlatform gateway = false.
Proof. repeat split; reflexivity. Qed.

(** ** The decoder *)

Section Decoder.
Context `{P : Platform} `{World W}.

(** [parseToolCallResponse] by what the [try] block makes of the reply. *)
Lemma parseToolCallResponse_cases (content : jsstring) (w : W) :
  parseToolCallResponse content w
  = match extractJSON (trim content) ≫= interpret with
    | Throw _ => (None, w)
    | Ok (ToolInvocation tool args) =>
        (Some (toolCallReply (fst (Date_now w)) (fst (Date_now (snd (Date_now w))))
                 tool args),
         snd (Date_now (snd (Date_now w))))
    | Ok (FinalAnswer final) =>
        (Some (plainReply (fst (Date_now w)) (js "ollama-cloud") final),
         snd (Date_now w))
    end.
Proof.
  unfold parseToolCallResponse, decodeToolCall.
  destruct (extractJSON (trim content) ≫= interpret) as [[tool args | final] | e];
    [| | reflexivity].
  - destruct (Date_now w) as [t1 w1]. cbn [fst snd].
    destruct (Date_now w1) as [t2 w2]. reflexivity.
  - destruct (Date_now w) as [t1 w1]. reflexivity.
Qed.

(** When no step of the chain gives JSON, the inner [try] throws. *)
Lemma extractJSON_throws (trimmed : jsstring) :
  (forall v, JSON_parse trimmed <> Ok v) ->
  (forall g v, match_fenced trimmed = Some g -> JSON_parse g <> Ok v) ->
  (forall t v, match_object trimmed = Some t -> JSON_parse t <> Ok v) ->
  exists e, extractJSON trimmed = Throw e.
Proof.
  intros Hwhole Hfenced Hobject. unfold extractJSON.
  destruct (JSON_parse trimmed) as [v | e0]; [by destruct (Hwhole v) |].
  destruct (match_fenced trimmed) as [g |].
  - destruct (JSON_parse g) as [v | e] eqn:Hg; [| eauto].
    destruct (Hfenced g v eq_refl Hg).
  - destruct (match_object trimmed) as [t |]; [| eauto].
    destruct (JSON_parse t) as [v | e] eqn:Ht; [| eauto].
    destruct (Hobject t v eq_refl Ht).
Qed.

(** A reply the decoder gives up on is returned as it came. *)
Lemma doSendRequest_falls_through (host apiKey : option jsstring)
    (request : Request) (reply : jsstring) (w w1 : W) :
  ollama_chat (chatCall host apiKey request) w = (Replied reply, w1) ->
  hasTools request = true ->
  parseToolCallResponse reply w1 = (None, w1) ->
  OllamaCloud_doSendRequest host apiKey request w
  = (Ok (plainReply (fst (Date_now w1)) (model request) (JString reply)),
     snd (Date_now w1)).
Proof.
  intros Hchat Htools Hnull. unfold OllamaCloud_doSendRequest.
  rewrite Hchat, Htools, Hnull. destruct (Date_now w1). reflexivity.
Qed.

Lemma interpret_object (fields : list (jsstring * json)) :
  interpret (JObject fields)
  = match assoc (js "tool") fields, assoc (js "arguments") fields with
    | Some tool_v, Some args_v =>
        if truthy tool_v && truthy args_v then Ok (ToolInvocation tool_v args_v)
        else interpretFinal (assoc (js "final") fields)
    | _, _ => interpretFinal (assoc (js "final") fields)
    end.
Proof. reflexivity. Qed.

Lemma interpretFinal_falsy (final : option json) :
  truthy_opt final = false -> exists e, interpretFinal final = Throw e.
Proof.
  unfold interpretFinal. destruct final as [v |]; cbn [truthy_opt].
  - intros ->. eauto.
  - eauto.
Qed.

(** An object whose [tool] and [arguments] are not both truthy is read
    through its [final] property alone. *)
Lemma interpret_no_tool (fields : list (jsstring * json)) :
  truthy_opt (assoc (js "tool") fields)
    && truthy_opt (assoc (js "arguments") fields) = false ->
  interpret (JObject fields) = interpretFinal (assoc (js "final") fields).
Proof.
  intros Hno. rewrite interpret_object.
  destruct (assoc (js "tool") fields) as [t |]; [| reflexivity].
  destruct (assoc (js "arguments") fields) as [a |]; [| reflexivity].
  cbn [truthy_opt] in Hno. rewrite Hno. reflexivity.
Qed.

(** C6. When no step of the fallback chain gives text that parses as
    JSON, the [try] block of the decoder throws, the decoder catches
    that and returns [null], and [doSendRequest] returns the raw reply
    as the content of one assistant choice with finish reason [stop]. *)
Theorem unparseable_reply_passes_through (host apiKey : option jsstring)
    (request : Request) (reply : jsstring) (w w1 : W) :
  (forall v, JSON_parse (trim reply) <> Ok v) ->
  (forall g v, match_fenced (trim reply) = Some g -> JSON_parse g <> Ok v) ->
  (forall t v, match_object (trim reply) = Some t -> JSON_parse t <> Ok v) ->
  hasTools request = true ->
  ollama_chat (chatCall host apiKey request) w = (Replied reply, w1) ->
  (exists e, decodeToolCall reply w1 = (Throw e, w1)) /\
  parseToolCallResponse reply w1 = (None, w1) /\
  OllamaCloud_doSendRequest host apiKey request w
  = (Ok {| response_id := js "chatcmpl-" ++ js (pretty (fst (Date_now w1)));
           response_model := model request;
           choices :=
             [{| choice_index := 0;
                 choice_message := {| reply_role := js "assistant";
                                      reply_content := JString reply;
                                      reply_tool_calls := None |};
                 finish_reason := js "stop" |}];
           usage := zero_usage |},
     snd (Date_now w1)).
Proof.
  intros Hwhole Hfenced Hobject Htools Hchat.
  destruct (extractJSON_throws _ Hwhole Hfenced Hobject) as [e He].
  assert (Hnull : parseToolCallResponse reply w1 = (None, w1)).
  { rewrite parseToolCallResponse_cases, He. reflexivity. }
  split; [| split; [exact Hnull |]].
  - exists e. unfold decodeToolCall. rewrite He. reflexivity.
  - apply doSendRequest_falls_through; assumption.
Qed.

End Decoder.

Lemma unparseable_reply_passes_through_witness :
  @parseToolCallResponse RefPlatform Script ScriptWorld prose
    {| clock := 1700000000000; chat_replies := []; create_replies := [] |}
  = (None, {| clock := 1700000000000; chat_replies := []; create_replies := [] |}) /\
  @OllamaCloud_doSendRequest RefPlatform Script ScriptWorld None (Some (js "key-1"))
    websearch_request (world_of [Replied prose])
  = (Ok {| response_id := js "chatcmpl-1700000000000";
           response_model := js "gpt-oss:20b-cloud";
           choices :=
             [{| choice_index := 0;
                 choice_message := {| reply_role := js "assistant";
                                      reply_content := JString prose;
                                      reply_tool_calls := None |};
                 finish_reason := js "stop" |}];
           usage := zero_usage |},
     {| clock := 1700000000001; chat_replies := []; create_replies := [] |}).
Proof.
  destruct (unparseable_reply_passes_through (P := RefPlatform) (W := Script)
              None (Some (js "key-1")) websearch_request prose
              (world_of [Replied prose])
              {| clock := 1700000000000; chat_replies := []; create_replies := [] |})
    as (_ & Hnull & Hreply).
  - intros v Hv. vm_compute in Hv. discriminate Hv.
  - intros g v Hg. vm_compute in Hg. discriminate Hg.
  - intros t v Ht. vm_compute in Ht. discriminate Ht.
  - reflexivity.
  - reflexivity.
  - split; [exact Hnull | exact Hreply].
Defined.

(** C10. A reply that parses to an object whose [final] property is a
    falsy value (and whose [tool] and [arguments] are not both truthy) is
    treated as a decode failure: the decoder returns [null] and
    [doSendRequest] returns the raw reply text as the content of a plain
    assistant choice. The reply [{"final": ""}] is one: it comes back as
    the text [{"final": ""}], not as an empty answer. *)
Theorem falsy_final_passes_through :
  (forall (P : Platform) (W : Type) (H : World W) (host apiKey : option jsstring)
          (request : Request) (reply : jsstring)
          (fields : list (jsstring * json)) (final : json) (w w1 : W),
      extractJSON (trim reply) = Ok (JObject fields) ->
      assoc (js "final") fields = Some final ->
      truthy final = false ->
      truthy_opt (assoc (js "tool") fields)
        && truthy_opt (assoc (js "arguments") fields) = false ->
      hasTools request = true ->
      ollama_chat (chatCall host apiKey request) w = (Replied reply, w1) ->
      parseToolCallResponse reply w1 = (None, w1) /\
      OllamaCloud_doSendRequest host apiKey request w
      = (Ok (plainReply (fst (Date_now w1)) (model request) (JString reply)),
         snd (Date_now w1))) /\
  @JSON_parse RefPlatform empty_final = Ok (JObject [(js "final", JString [])]) /\
  @OllamaCloud_doSendRequest RefPlatform Script ScriptWorld None (Some (js "key-1"))
    websearch_request (world_of [Replied empty_final])
  = (Ok {| response_id := js "chatcmpl-1700000000000";
           response_model := js "gpt-oss:20b-cloud";
           choices :=
             [{| choice_index := 0;
                 choice_message := {| reply_role := js "assistant";
                                      reply_content := JString empty_final;
                                      reply_tool_calls := None |};
                 finish_reason := js "stop" |}];
           usage := zero_usage |},
     {| clock := 1700000000001; chat_replies := []; create_replies := [] |}).
Proof.
  split; [| split; reflexivity].
  intros P W H host apiKey request reply fields final w w1
    Hparsed Hfinal Hfalsy Hno Htools Hchat.
  assert (Hnull : parseToolCallResponse reply w1 = (None, w1)).
  { rewrite parseToolCallResponse_cases, Hparsed. cbn [mbind result_bind].
    rewrite (interpret_no_tool _ Hno), Hfinal. cbn [interpretFinal].
    rewrite Hfalsy. reflexivity. }
  split; [exact Hnull |].
  apply doSendRequest_falls_through; assumption.
Qed.

Lemma falsy_final_passes_through_witness :
  @parseToolCallResponse RefPlatform Script ScriptWorld (jsq "{`final`:0}")
    {| clock := 1700000000000; chat_replies := []; create_replies := [] |}
  = (None, {| clock := 1700000000000; chat_replies := []; create_replies := [] |}) /\
  @OllamaCloud_doSendRequest RefPlatform Script ScriptWorld None (Some (js "key-1"))
    websearch_request (world_of [Replied (jsq "{`final`:0}")])
  = (Ok (plainReply 1700000000000 (js "gpt-oss:20b-cloud") (JString (jsq "{`final`:0}"))),
     {| clock := 1700000000001; chat_replies := []; create_replies := [] |}).
Proof.
  destruct falsy_final_passes_through as [Hgeneral _].
  apply (Hgeneral RefPlatform Script ScriptWorld None (Some (js "key-1"))
           websearch_request (jsq "{`final`:0}")
           [(js "final", JNumber 0%float)] (JNumber 0%float)
           (world_of [Replied (jsq "{`final`:0}")])
           {| clock := 1700000000000; chat_replies := []; create_replies := [] |});
    reflexivity.
Defined.

(** C4 (amended). With the tool schema [websearch] in the request, the
    model output [{"tool":"websearch","arguments":{"q":"weather"}}]
    comes back as one tool-invocation choice: function name
    [websearch], arguments [{"q":"weather"}], finish reason
    [tool_calls]. In general, what the decoder makes of parsed JSON goes
    by the truthiness of its fields: an object whose [tool] and
    [arguments] are both truthy gives a tool-invocation choice (function
    name [parsed.tool], arguments the serialised [parsed.arguments],
    content [null]); failing that, an object whose [final] is truthy
    gives an assistant choice with [parsed.final] as content and finish
    reason [stop]; any other parsed value, an object with these fields
    present but falsy included, is a decode failure. *)
Theorem tool_call_decoding :
  @OllamaCloud_doSendRequest RefPlatform Script ScriptWorld None (Some (js "key-1"))
    websearch_request (world_of [Replied websearch_call])
  = (Ok {| response_id := js "chatcmpl-1700000000000";
           response_model := js "ollama-cloud";
           choices :=
             [{| choice_index := 0;
                 choice_message :=
                   {| reply_role := js "assistant";
                      reply_content := JNull;
                      reply_tool_calls :=
                        Some [{| call_id := js "call_1700000000001";
                                 call_type := js "function";
                                 function_name := JString (js "websearch");
                                 function_arguments := jsq "{`q`:`weather`}" |}] |};
                 finish_reason := js "tool_calls" |}];
           usage := zero_usage |},
     {| clock := 1700000000002; chat_replies := []; create_replies := [] |}) /\
  forall (P : Platform) (W : Type) (H : World W) (reply : jsstring)
         (parsed : json) (w : W),
    extractJSON (trim reply) = Ok parsed ->
    (forall fields tool args,
        parsed = JObject fields ->
        assoc (js "tool") fields = Some tool ->
        assoc (js "arguments") fields = Some args ->
        truthy tool = true -> truthy args = true ->
        parseToolCallResponse reply w
        = (Some {| response_id := js "chatcmpl-" ++ js (pretty (fst (Date_now w)));
                   response_model := js "ollama-cloud";
                   choices :=
                     [{| choice_index := 0;
                         choice_message :=
                           {| reply_role := js "assistant";
                              reply_content := JNull;
                              reply_tool_calls :=
                                Some [{| call_id :=
                                           js "call_"
                                             ++ js (pretty (fst (Date_now (snd (Date_now w)))));
                                         call_type := js "function";
                                         function_name := tool;
                                         function_arguments := JSON_stringify args |}] |};
                         finish_reason := js "tool_calls" |}];
                   usage := zero_usage |},
           snd (Date_now (snd (Date_now w))))) /\
    (forall fields final,
        parsed = JObject fields ->
        truthy_opt (assoc (js "tool") fields)
          && truthy_opt (assoc (js "arguments") fields) = false ->
        assoc (js "final") fields = Some final ->
        truthy final = true ->
        parseToolCallResponse reply w
        = (Some {| response_id := js "chatcmpl-" ++ js (pretty (fst (Date_now w)));
                   response_model := js "ollama-cloud";
                   choices :=
                     [{| choice_index := 0;
                         choice_message := {| reply_role := js "assistant";
                                              reply_content := final;
                                              reply_tool_calls := None |};
                         finish_reason := js "stop" |}];
                   usage := zero_usage |},
           snd (Date_now w))) /\
    ((forall fields,
         parsed = JObject fields ->
         truthy_opt (assoc (js "tool") fields)
           && truthy_opt (assoc (js "arguments") fields) = false /\
         truthy_opt (assoc (js "final") fields) = false) ->
     parseToolCallResponse reply w = (None, w)).
Proof.
  split; [reflexivity |].
  intros P W H reply parsed w Hparsed.
  rewrite parseToolCallResponse_cases, Hparsed.
  cbn [mbind result_bind]. repeat split.
  - intros fields tool args -> Htool Hargs Ht Ha.
    rewrite interpret_object, Htool, Hargs, Ht, Ha. reflexivity.
  - intros fields final -> Hno Hfinal Hf.
    rewrite (interpret_no_tool _ Hno), Hfinal. cbn [interpretFinal].
    rewrite Hf. reflexivity.
  - intros Hother. destruct parsed as [| b | x | s | items | fields];
      try reflexivity.
    destruct (Hother fields eq_refl) as [Hno Hfinal].
    rewrite (interpret_no_tool _ Hno).
    destruct (interpretFinal_falsy _ Hfinal) as [e ->]. reflexivity.
Qed.

Lemma tool_call_decoding_witness :
  @parseToolCallResponse RefPlatform Script ScriptWorld
    fenced_final
    {| clock := 1700000000000; chat_replies := []; create_replies := [] |}
  = (Some (plainReply 1700000000000 (js "ollama-cloud") (JString (js "hello"))),
     {| clock := 1700000000001; chat_replies := []; create_replies := [] |}).
Proof.
  destruct tool_call_decoding as [_ Hgeneral].
  destruct (Hgeneral RefPlatform Script ScriptWorld
              fenced_final
              (JObject [(js "final", JString (js "hello"))])
              {| clock := 1700000000000; chat_replies := []; create_replies := [] |}
              eq_refl)
    as (_ & Hfinal & _).
  apply (Hfinal [(js "final", JString (js "hello"))] (JString (js "hello")));
    reflexivity.
Defined.

(** C4, as stated, fails: the output [{"tool":"websearch","arguments":null}]
    parses to JSON that carries both a [tool] and an [arguments] field,
    and the decoder returns [null] for it. *)
Lemma null_arguments_not_decoded :
  @JSON_parse RefPlatform null_arguments_call
  = Ok (JObject [(js "tool", JString (js "websearch")); (js "arguments", JNull)]) /\
  @parseToolCallResponse RefPlatform Script ScriptWorld null_arguments_call
    {| clock := 1700000000000; chat_replies := []; create_replies := [] |}
  = (None, {| clock := 1700000000000; chat_replies := []; create_replies := [] |}).
Proof. split; reflexivity. Qed.

(** ** The two regular expressions

    What a match of each pattern looks like in the text it was found
    in. *)

Lemma startsWith_app (needle s : jsstring) :
  startsWith needle s = true -> exists rest, s = needle ++ rest.
Proof.
  revert s. induction needle as [| c needle IH]; intros s Hs.
  - exists s. reflexivity.
  - destruct s as [| d s]; [discriminate |]. cbn [startsWith] in Hs.
    apply andb_true_iff in Hs as [Hc Hrest]. apply N.eqb_eq in Hc as ->.
    destruct (IH s Hrest) as [rest ->]. exists rest. reflexivity.
Qed.

Lemma search_Some {A} (m : jsstring -> option A) (s : jsstring) (x : A) :
  search m s = Some x -> exists pre rest, s = pre ++ rest /\ m rest = Some x.
Proof.
  induction s as [| c s IH]; cbn [search]; intros Hs.
  - destruct (m []) eqn:Hm; [| discriminate]. exists [], []. by injection Hs as <-.
  - destruct (m (c :: s)) eqn:Hm.
    + exists [], (c :: s). by injection Hs as <-.
    + destruct (IH Hs) as (pre & rest & -> & Hrest).
      exists (c :: pre), rest. done.
Qed.

Lemma star_greedy_Some {A} (p : N -> bool) (k : jsstring -> option A)
    (s : jsstring) (x : A) :
  star_greedy p k s = Some x ->
  exists run rest,
    s = run ++ rest /\ Forall (fun c => p c = true) run /\ k rest = Some x.
Proof.
  induction s as [| c s IH]; cbn [star_greedy]; intros Hs.
  - exists [], []. done.
  - destruct (p c) eqn:Hc; [| by exists [], (c :: s)].
    destruct (star_greedy p k s) as [y |] eqn:Hstar.
    + injection Hs as ->. destruct (IH eq_refl) as (run & rest & -> & Hrun & Hk).
      exists (c :: run), rest. repeat split; [| done]. by constructor.
    + by exists [], (c :: s).
Qed.

Lemma fence_tail_true (s : jsstring) :
  fence_tail s = true ->
  exists space rest,
    s = space ++ FENCE ++ rest /\ Forall (fun c => isWhiteSpace c = true) space.
Proof.
  unfold fence_tail.
  destruct (star_greedy isWhiteSpace _ s) as [[] |] eqn:Hstar; [| discriminate].
  intros _. destruct (star_greedy_Some _ _ _ _ Hstar) as (run & rest & -> & Hrun & Hk).
  destruct (startsWith FENCE rest) eqn:Hfence; [| discriminate].
  destruct (startsWith_app _ _ Hfence) as [rest' ->]. by exists run, rest'.
Qed.

Lemma fence_body_Some (acc s g : jsstring) :
  fence_body acc s = Some g ->
  exists body rest,
    s = body ++ RBRACE :: rest /\ g = rev acc ++ body ++ [RBRACE] /\
    fence_tail rest = true.
Proof.
  revert acc. induction s as [| c s IH]; intros acc; cbn [fence_body]; [done |].
  destruct ((c =? RBRACE)%N && fence_tail s) eqn:Hend.
  - intros [= <-]. apply andb_true_iff in Hend as [->%N.eqb_eq Htail].
    exists [], s. done.
  - intros Hg. destruct (IH _ Hg) as (body & rest & -> & -> & Htail).
    exists (c :: body), rest. repeat split; [| done].
    cbn [rev]. by rewrite <- app_assoc.
Qed.

(** A match of the fence pattern: a fence, [json] or nothing, white
    space, the group from an opening to a closing brace, white space, a
    fence. *)
Lemma match_fenced_Some (s g : jsstring) :
  match_fenced s = Some g ->
  exists pre lang space1 body space2 post,
    s = pre ++ FENCE ++ lang ++ space1 ++ g ++ space2 ++ FENCE ++ post /\
    (lang = [] \/ lang = js "json") /\
    Forall (fun c => isWhiteSpace c = true) space1 /\
    Forall (fun c => isWhiteSpace c = true) space2 /\
    g = LBRACE :: body ++ [RBRACE].
Proof.
  intros Hs. destruct (search_Some _ _ _ Hs) as (pre & at_ & -> & Hat).
  unfold fence_at in Hat.
  destruct (startsWith FENCE at_) eqn:Hfence; [| discriminate].
  destruct (startsWith_app _ _ Hfence) as [r ->].
  change (drop 3 (FENCE ++ r)) with r in Hat.
  assert (Hgroup : forall t, fence_group t = Some g ->
            exists space1 body space2 post,
              t = space1 ++ g ++ space2 ++ FENCE ++ post /\
              Forall (fun c => isWhiteSpace c = true) space1 /\
              Forall (fun c => isWhiteSpace c = true) space2 /\
              g = LBRACE :: body ++ [RBRACE]).
  { intros t Ht. unfold fence_group in Ht.
    destruct (star_greedy_Some _ _ _ _ Ht) as (space1 & rest & -> & Hsp1 & Hk).
    destruct rest as [| c inside]; [discriminate |].
    destruct (N.eqb_spec c LBRACE) as [-> | _]; [| discriminate].
    destruct (fence_body_Some _ _ _ Hk) as (body & rest & -> & -> & Htail).
    destruct (fence_tail_true _ Htail) as (space2 & post & -> & Hsp2).
    exists space1, body, space2, post. repeat split; try done.
    cbn [rev app]. by rewrite <- !app_assoc. }
  destruct (startsWith (js "json") r) eqn:Hjson.
  - destruct (startsWith_app _ _ Hjson) as [r' ->].
    change (drop 4 (js "json" ++ r')) with r' in Hat.
    destruct (fence_group r') as [g' |] eqn:Hwith.
    + injection Hat as ->.
      destruct (Hgroup _ Hwith) as (sp1 & body & sp2 & post & -> & ? & ? & ?).
      exists pre, (js "json"), sp1, body, sp2, post. repeat split; auto.
    + destruct (Hgroup _ Hat) as (sp1 & body & sp2 & post & Heq & ? & ? & ?).
      exists pre, [], sp1, body, sp2, post. rewrite Heq. repeat split; auto.
  - destruct (Hgroup _ Hat) as (sp1 & body & sp2 & post & -> & ? & ? & ?).
    exists pre, [], sp1, body, sp2, post. repeat split; auto.
Qed.

Lemma object_body_Some (s m : jsstring) :
  object_body s = Some m ->
  exists body post,
    s = m ++ post /\ m = body ++ [RBRACE] /\ (RBRACE ∉ post).
Proof.
  revert m. induction s as [| c s IH]; intros m; cbn [object_body]; [done |].
  destruct (object_body s) as [m' |] eqn:Hbody.
  - intros [= <-]. destruct (IH _ eq_refl) as (body & post & -> & -> & Hpost).
    exists (c :: body), post. done.
  - destruct (N.eqb_spec c RBRACE) as [-> | _]; [| discriminate].
    intros [= <-]. exists [], s. repeat split.
    clear IH. induction s as [| d s IH]; [apply not_elem_of_nil |].
    cbn [object_body] in Hbody. destruct (object_body s); [discriminate |].
    destruct (N.eqb_spec d RBRACE) as [-> | Hd]; [discriminate |].
    apply not_elem_of_cons. split; [congruence | by apply IH].
Qed.

Lemma object_body_None (s : jsstring) :
  object_body s = None -> RBRACE ∉ s.
Proof.
  induction s as [| c s IH]; cbn [object_body]; [intros _; apply not_elem_of_nil |].
  destruct (object_body s); [discriminate |].
  destruct (N.eqb_spec c RBRACE) as [-> | Hc]; [discriminate |].
  intros _. apply not_elem_of_cons. split; [congruence | by apply IH].
Qed.

Lemma search_object_at (s m : jsstring) :
  search object_at s = Some m ->
  exists pre body post,
    s = pre ++ m ++ post /\ m = LBRACE :: body ++ [RBRACE] /\
    (RBRACE ∉ post) /\
    (LBRACE ∈ pre ->
     exists pre1 pre2, pre = pre1 ++ LBRACE :: pre2 /\ RBRACE ∉ pre2 ++ m ++ post).
Proof.
  induction s as [| c s IH]; cbn [search object_at]; [done |].
  destruct (N.eqb_spec c LBRACE) as [-> | Hc].
  - destruct (object_body s) as [m' |] eqn:Hbody; cbn [option_map].
    + intros [= <-]. destruct (object_body_Some _ _ Hbody) as (body & post & -> & -> & Hpost).
      exists [], body, post. repeat split; try done.
      intros Hin. by apply elem_of_nil in Hin.
    + intros Hs. destruct (IH Hs) as (pre & body & post & -> & -> & Hpost & _).
      exists (LBRACE :: pre), body, post. repeat split; try done.
      intros _. exists [], pre. split; [done |].
      by apply object_body_None.
  - intros Hs. destruct (IH Hs) as (pre & body & post & -> & -> & Hpost & Hpre).
    exists (c :: pre), body, post. repeat split; try done.
    intros Hin. apply elem_of_cons in Hin as [Heq | Hin]; [congruence |].
    destruct (Hpre Hin) as (pre1 & pre2 & -> & Hno).
    exists (c :: pre1), pre2. done.
Qed.

(** A match of the object pattern runs from the first opening brace of
    the text to its last closing brace. *)
Lemma match_object_Some (s m : jsstring) :
  match_object s = Some m ->
  exists pre body post,
    s = pre ++ m ++ post /\ m = LBRACE :: body ++ [RBRACE] /\
    (LBRACE ∉ pre) /\ (RBRACE ∉ post).
Proof.
  intros Hs. destruct (search_object_at _ _ Hs) as (pre & body & post & -> & -> & Hpost & Hpre).
  exists pre, body, post. repeat split; try done.
  intros Hin. destruct (Hpre Hin) as (pre1 & pre2 & _ & Hno).
  apply Hno. rewrite elem_of_app. right.
  rewrite elem_of_app. left. apply elem_of_cons. right.
  rewrite elem_of_app. right. apply list_elem_of_singleton. reflexivity.
Qed.

(** ** The model at work

    The testable properties of the specification that are not claims
    above, and a few readings of the platform functions, evaluated. *)

(** A fenced block that holds [{"final":"hello"}] decodes to a plain
    assistant choice with content [hello]. *)
Example fenced_final_decodes :
  match_fenced (trim fenced_final) = Some (jsq "{`final`:`hello`}") /\
  fst (@parseToolCallResponse RefPlatform Script ScriptWorld fenced_final (world_of []))
  = Some (plainReply 1700000000000 (js "ollama-cloud") (JString (js "hello"))).
Proof. split; reflexivity. Qed.

(** A turn with role [tool] goes upstream as a [user] turn that holds
    the tool's result, and a turn with tool calls as one line of text
    per call. *)
Example tool_turns_rewritten :
  @preprocessMessages RefPlatform
    [{| role := js "assistant"; content := [];
        name := None;
        tool_calls := Some [{| tc_name := Some (js "websearch");
                               tc_arguments :=
                                 ArgumentsValue
                                   (JObject [(js "q", JString (js "weather"))]) |}] |};
     {| role := js "tool"; content := js "sunny, 21 C";
        name := Some (js "websearch"); tool_calls := None |}]
  = [{| role := js "assistant"; content := websearch_call;
        name := None; tool_calls := None |};
     user_turn (js "Tool result from websearch:" ++ NL ++ js "sunny, 21 C")].
Proof. reflexivity. Qed.

(** The first brace-to-last-brace span, and white space at both ends. *)
Example object_span :
  match_object (js "a } { b } c { d } e {") = Some (js "{ b } c { d }") /\
  match_object (js "} {") = None /\
  trim ([65279; 9; 10]%N ++ js " a b " ++ [160; 8232]%N) = js "a b".
Proof. repeat split; reflexivity. Qed.

(** The reference platform on numbers, escapes and property order. *)
Example reference_platform_reads :
  Ref.parse (jsq " [1e-400, -0, 0.1, 1e21, `A\n`] ")
  = Ok (JArray [JNumber 0%float; JNumber (-0)%float;
                JNumber 0x1.999999999999ap-4%float; JNumber 1e21%float;
                JString [65%N; 10%N]]) /\
  Ref.stringify (JArray [JNumber 0x1.999999999999ap-4%float; JNumber 1e21%float;
                         JNumber (-0)%float; JString [65%N; 10%N; 34%N]])
  = jsq "[0.1,1e+21,0,`A\n\``]" /\
  Ref.parse (jsq "{`b`:1,`2`:0,`1`:0,`b`:3}")
  = Ok (JObject [(js "1", JNumber 0%float); (js "2", JNumber 0%float);
                 (js "b", JNumber 3%float)]).
Proof. repeat split; reflexivity. Qed.

(** * Further properties *)

(** ** KeyRotator: what a caller can rely on *)

(** X1. On a rotator built by the constructor, every [getNextKey] call,
    however many came before it, returns a key of the pool (never
    [undefined]), leaves the cursor on the position of that key, and a
    [getCurrentKey] after it returns that same key. *)
Theorem getNextKey_returns_pool_key (ks : list jsstring) (r : KeyRotator) (n : nat) :
  new_KeyRotator ks = Ok r ->
  let before := snd (getNextKey_times n r) in
  exists k : jsstring,
    fst (getNextKey before) = Some k /\
    k ∈ ks /\
    ks !! Z.to_nat (getCurrentIndex (snd (getNextKey before))) = Some k /\
    getCurrentKey (snd (getNextKey before)) = Some k.
Proof.
  intros (Hok & Hkeys & _)%new_KeyRotator_ok before. subst before.
  destruct (getNextKey_times_ok n r Hok) as [Hokn Hkeysn].
  set (rn := snd (getNextKey_times n r)) in *.
  destruct (getNextKey_step rn Hokn) as (Hk & Hcur & Hkey & [Hne Hrange]).
  assert (Hnn : 0 <= currentKeyIndex (snd (getNextKey rn))).
  { rewrite Hcur. apply Z.mod_pos_bound. rewrite Hkeysn.
    destruct Hok as [Hne0 _]. apply length_pos_of_ne, Hne0. }
  destruct (lookup_lt_is_Some_2 (keys rn) (Z.to_nat (currentKeyIndex (snd (getNextKey rn)))))
    as [k Hlook].
  { rewrite Hk in Hrange. lia. }
  exists k. rewrite Hkeysn, Hkeys in Hlook.
  split; [rewrite Hkey, Hkeysn, Hkeys; exact Hlook |].
  split; [eapply list_elem_of_lookup_2, Hlook |].
  split; [exact Hlook |].
  unfold getCurrentKey. rewrite index_nonneg by exact Hnn.
  rewrite Hk, Hkeysn, Hkeys. exact Hlook.
Qed.

Lemma getNextKey_returns_pool_key_witness :
  exists k : jsstring,
    fst (getNextKey (snd (getNextKey_times 4 fresh_rotator))) = Some k /\
    k ∈ three_keys /\
    three_keys
      !! Z.to_nat (getCurrentIndex (snd (getNextKey (snd (getNextKey_times 4 fresh_rotator)))))
    = Some k /\
    getCurrentKey (snd (getNextKey (snd (getNextKey_times 4 fresh_rotator)))) = Some k.
Proof.
  exact (getNextKey_returns_pool_key three_keys fresh_rotator 4 eq_refl).
Defined.

(** X2. After [n >= 1] rotations the cursor stands at
    [(cursor + n) mod N] and the pool is the one given; a rotator whose
    cursor is set is back in the same state after [N] rotations. *)
Theorem rotation_closed_form (r : KeyRotator) (n : nat) :
  rotator_ok r ->
  (0 < n)%nat ->
  snd (getNextKey_times n r)
  = {| currentKeyIndex := (currentKeyIndex r + Z.of_nat n) mod Z.of_nat (length (keys r));
       keys := keys r |} /\
  (0 <= currentKeyIndex r ->
   snd (getNextKey_times (length (keys r)) r) = r).
Proof.
  intros Hok Hn.
  assert (Hform : forall m r0, rotator_ok r0 ->
            snd (getNextKey_times (S m) r0)
            = {| currentKeyIndex :=
                   (currentKeyIndex r0 + Z.of_nat (S m)) mod Z.of_nat (length (keys r0));
                 keys := keys r0 |}).
  { clear. induction m as [| m IH]; intros r0 Hok0.
    - destruct (getNextKey_step r0 Hok0) as (Hk & Hcur & _).
      rewrite getNextKey_times_S. cbn [snd getNextKey_times].
      destruct (snd (getNextKey r0)) as [c ks] eqn:Hr1. cbn in Hk, Hcur.
      subst. reflexivity.
    - destruct (getNextKey_step r0 Hok0) as (Hk & Hcur & _ & Hok1).
      rewrite getNextKey_times_S. cbn [snd]. rewrite (IH _ Hok1), Hk, Hcur.
      f_equal. rewrite Zplus_mod_idemp_l. f_equal. lia. }
  split.
  - destruct n as [| m]; [lia |]. apply Hform, Hok.
  - intros Hset. destruct Hok as [Hne Hrange].
    destruct (keys r) as [| k ks] eqn:Hkeys; [done |].
    rewrite <- Hkeys. replace (length (keys r)) with (S (length ks)) at 1
      by (rewrite Hkeys; reflexivity).
    rewrite Hform by (split; [by rewrite Hkeys | by rewrite Hkeys]).
    replace (Z.of_nat (S (length ks))) with (Z.of_nat (length (keys r)))
      by (rewrite Hkeys; reflexivity).
    replace (currentKeyIndex r + Z.of_nat (length (keys r)))
      with (currentKeyIndex r + 1 * Z.of_nat (length (keys r))) by lia.
    rewrite Z_mod_plus_full, Z.mod_small by (rewrite Hkeys; lia).
    destruct r. reflexivity.
Qed.

Lemma rotation_closed_form_witness :
  snd (getNextKey_times 5 {| currentKeyIndex := 1; keys := three_keys |})
  = {| currentKeyIndex := 0; keys := three_keys |} /\
  snd (getNextKey_times 3 {| currentKeyIndex := 1; keys := three_keys |})
  = {| currentKeyIndex := 1; keys := three_keys |}.
Proof.
  destruct (rotation_closed_form {| currentKeyIndex := 1; keys := three_keys |} 5)
    as [Hform _]; [split; [discriminate | simpl; lia] | lia |].
  destruct (rotation_closed_form {| currentKeyIndex := 1; keys := three_keys |} 3)
    as [_ Hperiod]; [split; [discriminate | simpl; lia] | lia |].
  split; [exact Hform | apply Hperiod; simpl; lia].
Defined.

(** ** The retry loop on any run *)

Section RetryAnyRun.
Context {W : Type} `{A : Adapter W}.







End RetryAnyRun.





(** ** The adapters *)

(** The OllamaCloud classifier as one disjunction. *)
Lemma OllamaCloud_classifier_eq `{Platform} (e : Error) :
  OllamaCloud_isQuotaExceededError e
  = (has_status e transient_statuses
     || includes_any (toLowerCase <$> message e) transient_phrases
     || includes_any (provider_error e ≫= error) payload_phrases).
Proof.
  unfold OllamaCloud_isQuotaExceededError, has_status, includes_any,
    transient_statuses, transient_phrases, payload_phrases.
  destruct (provider_error e) as [pe |]; cbn [mbind option_bind].
  - destruct (status pe) as [n |]; destruct (error pe) as [text |];
      destruct (message e) as [m |];
      cbn [fmap option_fmap option_map existsb];
      rewrite ?bool_decide_Some_Z, ?bool_decide_None_Z, ?includes_nil
        by discriminate;
      (etransitivity; [apply classifier_chain | reflexivity]).
  - destruct (message e) as [m |];
      cbn [fmap option_fmap option_map existsb];
      rewrite ?bool_decide_None_Z, ?includes_nil by discriminate;
      (etransitivity; [apply classifier_chain | reflexivity]).
Qed.

(** X7. When the upstream call of the OllamaCloud adapter fails,
    [doSendRequest] throws an error that carries the upstream failure
    unchanged as [provider_error]; and when that failure has status 429,
    502, 503 or 504, or a payload that contains [quota] or [rate limit],
    the classifier takes the thrown error for transient, whatever the
    message says: the retry loop goes on to the next credential. *)
Theorem OllamaCloud_failure_classified `{Platform} `{World W}
    (host apiKey : option jsstring) (request : Request) (w w1 : W)
    (e : ProviderError) :
  ollama_chat (chatCall host apiKey request) w = (Failed e, w1) ->
  exists thrown : Error,
    OllamaCloud_doSendRequest host apiKey request w = (Throw thrown, w1) /\
    provider_error thrown = Some e /\
    message thrown
    = Some (js "Failed to connect to OllamaCloud: " ++ interpolate (pe_message e)) /\
    ((exists n, status e = Some n /\ n ∈ transient_statuses) \/
     includes_any (error e) payload_phrases = true ->
     OllamaCloud_isQuotaExceededError thrown = true).
Proof.
  intros Hchat. exists (OllamaCloud_wrap e).
  split; [unfold OllamaCloud_doSendRequest; rewrite Hchat; reflexivity |].
  split; [reflexivity |]. split; [reflexivity |].
  intros Hcause. rewrite OllamaCloud_classifier_eq.
  unfold has_status. cbn [OllamaCloud_wrap provider_error mbind option_bind].
  destruct Hcause as [(n & Hn & Hin) | Hpayload].
  - rewrite Hn. cbn [mbind option_bind].
    assert (Hex : existsb (Z.eqb n) transient_statuses = true).
    { apply existsb_exists. exists n. split; [| apply Z.eqb_refl].
      apply list_elem_of_In, Hin. }
    rewrite Hex. reflexivity.
  - rewrite Hpayload. apply orb_true_r.
Qed.

Lemma OllamaCloud_failure_classified_witness :
  exists thrown : Error,
    @OllamaCloud_doSendRequest RefPlatform Script ScriptWorld None (Some (js "key-1"))
      plain_request three_quota_failures
    = (Throw thrown, world_of [Failed quota_failure; Failed quota_failure]) /\
    provider_error thrown = Some quota_failure /\
    message thrown = Some (js "Failed to connect to OllamaCloud: quota exceeded") /\
    ((exists n, status quota_failure = Some n /\ n ∈ transient_statuses) \/
     includes_any (error quota_failure) payload_phrases = true ->
     @OllamaCloud_isQuotaExceededError RefPlatform thrown = true).
Proof.
  apply (OllamaCloud_failure_classified (H := RefPlatform) (W := Script)
           None (Some (js "key-1")) plain_request three_quota_failures
           (world_of [Failed quota_failure; Failed quota_failure]) quota_failure).
  reflexivity.
Defined.

(** Whatever the OpenAI adapter throws, its own classifier takes for
    fatal: the thrown error is built by [new Error] and has no [code]. *)
Lemma OpenAI_thrown_is_fatal `{World W} (host apiKey : option jsstring)
    (request : Request) (w w1 : W) (e : Error) :
  OpenAI_doSendRequest host apiKey request w = (Throw e, w1) ->
  code e = None /\ OpenAI_isQuotaExceededError e = false.
Proof.
  unfold OpenAI_doSendRequest.
  destruct (openai_create _ w) as [[resp | pe] w2]; [discriminate |].
  intros [= <- <-]. split; reflexivity.
Qed.

(** X8. The OpenAI provider never moves on to another credential: with
    a non-empty pool, every [sendRequest] makes exactly one adapter
    call, whether it succeeds or fails and whatever the failure is, and
    advances the cursor by one. *)
Theorem OpenAI_single_attempt `{World W} (host : option jsstring)
    (request : Request) (kr : KeyRotator) (w : W)
    (out : outcome) (tr : list Attempt) (kr' : KeyRotator) (w' : W) :
  keys kr <> [] ->
  @sendRequest W (OpenAIProvider host) request kr w = (out, tr, kr', w') ->
  length tr = 1%nat /\
  kr' = snd (getNextKey kr) /\
  match out with
  | Resolved _ => True
  | Rejected thrown =>
      exists pe : ProviderError,
        thrown = Some (OpenAI_wrap pe) /\
        OpenAI_isQuotaExceededError (OpenAI_wrap pe) = false
  end.
Proof.
  intros Hne Hrun. unfold sendRequest, getKeyCount in Hrun. rewrite Nat2Z.id in Hrun.
  destruct (keys kr) as [| k ks] eqn:Hkeys; [done |]. cbn [length] in Hrun.
  rewrite retryLoop_S in Hrun. cbv zeta in Hrun.
  change (@doSendRequest W (OpenAIProvider host)) with (OpenAI_doSendRequest host) in Hrun.
  change (@isQuotaExceededError W (OpenAIProvider host))
    with OpenAI_isQuotaExceededError in Hrun.
  destruct (OpenAI_doSendRequest host (fst (getNextKey kr)) request w) as [res w1] eqn:Hcall.
  cbn [fst snd] in Hrun. destruct res as [resp | e].
  - injection Hrun as <- <- <- <-. repeat split.
  - destruct (OpenAI_thrown_is_fatal _ _ _ _ _ _ Hcall) as [_ Hfatal].
    rewrite Hfatal in Hrun. injection Hrun as <- <- <- <-. repeat split.
    unfold OpenAI_doSendRequest in Hcall.
    destruct (openai_create _ w) as [[r | pe] w2]; [discriminate |].
    injection Hcall as <- <-. exists pe. split; reflexivity.
Qed.

Lemma OpenAI_single_attempt_witness :
  let run := @sendRequest Script (OpenAIProvider None) plain_request
               fresh_rotator throttled_then_ok in
  length (snd (fst (fst run))) = 1%nat /\
  snd (fst run) = {| currentKeyIndex := 0; keys := three_keys |} /\
  fst (fst (fst run)) = Rejected (Some (OpenAI_wrap quota_failure)).
Proof.
  intros run.
  destruct (OpenAI_single_attempt (W := Script) None plain_request fresh_rotator
              throttled_then_ok
              (fst (fst (fst run))) (snd (fst (fst run))) (snd (fst run)) (snd run))
    as (Hlen & Hkr & _).
  - discriminate.
  - reflexivity.
  - split; [exact Hlen |]. split; [exact Hkr | reflexivity].
Defined.

(** X9. Whenever the OllamaCloud adapter returns a response, the
    response has exactly one choice, at index 0, by the assistant, with
    zeroed usage; and the choice is either a plain one (finish reason
    [stop], no tool calls) or a tool invocation (finish reason
    [tool_calls], [null] content, one call of type [function]), never
    both. A tool invocation is only ever returned for a request that
    carries at least one tool. *)
Theorem OllamaCloud_response_shape `{Platform} `{World W}
    (host apiKey : option jsstring) (request : Request) (w w' : W)
    (response : Response) :
  OllamaCloud_doSendRequest host apiKey request w = (Ok response, w') ->
  usage response = zero_usage /\
  exists c : Choice,
    choices response = [c] /\
    choice_index c = 0 /\
    reply_role (choice_message c) = js "assistant" /\
    ((finish_reason c = js "stop" /\ reply_tool_calls (choice_message c) = None) \/
     (finish_reason c = js "tool_calls" /\
      reply_content (choice_message c) = JNull /\
      hasTools request = true /\
      exists call : ToolCall,
        reply_tool_calls (choice_message c) = Some [call] /\
        call_type call = js "function")).
Proof.
  unfold OllamaCloud_doSendRequest.
  destruct (ollama_chat _ w) as [[reply | e] w1]; [| discriminate].
  destruct (hasTools request) eqn:Htools.
  - rewrite parseToolCallResponse_cases.
    destruct (extractJSON (trim reply) ≫= interpret) as [[tool args | final] | e].
    + intros [= <- <-]. split; [reflexivity |]. eexists. repeat split.
      right. repeat split. eexists. split; reflexivity.
    + intros [= <- <-]. split; [reflexivity |]. eexists. repeat split.
      left. split; reflexivity.
    + destruct (Date_now w1) as [t w2]. intros [= <- <-].
      split; [reflexivity |]. eexists. repeat split. left. split; reflexivity.
  - destruct (Date_now w1) as [t w2]. intros [= <- <-].
    split; [reflexivity |]. eexists. repeat split. left. split; reflexivity.
Qed.

Lemma OllamaCloud_response_shape_witness :
  exists c : Choice,
    choices (toolCallReply 1700000000000 1700000000001 (JString (js "websearch"))
               (JObject [(js "q", JString (js "weather"))])) = [c] /\
    choice_index c = 0 /\
    reply_role (choice_message c) = js "assistant" /\
    ((finish_reason c = js "stop" /\ reply_tool_calls (choice_message c) = None) \/
     (finish_reason c = js "tool_calls" /\
      reply_content (choice_message c) = JNull /\
      hasTools websearch_request = true /\
      exists call : ToolCall,
        reply_tool_calls (choice_message c) = Some [call] /\
        call_type call = js "function")).
Proof.
  apply (OllamaCloud_response_shape (H := RefPlatform) (W := Script)
           None (Some (js "key-1")) websearch_request
           (world_of [Replied websearch_call])
           {| clock := 1700000000002; chat_replies := []; create_replies := [] |}).
  reflexivity.
Defined.

(** ** The decoder and white space *)

Lemma trimStart_space (space s : jsstring) :
  Forall (fun c => isWhiteSpace c = true) space ->
  trimStart (space ++ s) = trimStart s.
Proof.
  induction 1 as [| c space Hc _ IH]; [reflexivity |].
  cbn [app trimStart]. rewrite Hc. exact IH.
Qed.

Lemma trimStart_all_space (space : jsstring) :
  Forall (fun c => isWhiteSpace c = true) space -> trimStart space = [].
Proof.
  intros Hsp. rewrite <- (app_nil_r space). rewrite trimStart_space by done.
  reflexivity.
Qed.

Lemma trimStart_app (a b : jsstring) :
  trimStart (a ++ b)
  = if forallb isWhiteSpace a then trimStart b else trimStart a ++ b.
Proof.
  induction a as [| c a IH]; [reflexivity |].
  cbn [app trimStart forallb]. destruct (isWhiteSpace c); [exact IH | reflexivity].
Qed.

Lemma trimEnd_space (s space : jsstring) :
  Forall (fun c => isWhiteSpace c = true) space ->
  trimEnd (s ++ space) = trimEnd s.
Proof.
  intros Hsp. unfold trimEnd. rewrite rev_app_distr, trimStart_space; [reflexivity |].
  apply Forall_rev, Hsp.
Qed.

(** [trim] does not see white space around the text. *)
Lemma trim_space (l s r : jsstring) :
  Forall (fun c => isWhiteSpace c = true) l ->
  Forall (fun c => isWhiteSpace c = true) r ->
  trim (l ++ s ++ r) = trim s.
Proof.
  intros Hl Hr. unfold trim. rewrite trimStart_space by done.
  rewrite trimStart_app. destruct (forallb isWhiteSpace s) eqn:Hs.
  - rewrite trimStart_all_space by done.
    rewrite (trimStart_all_space s); [reflexivity |].
    apply Forall_forall. intros c Hc.
    apply (proj1 (forallb_forall _ _) Hs), list_elem_of_In, Hc.
  - apply trimEnd_space, Hr.
Qed.

(** X10. The decoder does not see white space around the reply: a
    reply decodes as the same reply with any white space, line breaks
    included, put before and after it. *)
Theorem parseToolCallResponse_ignores_margin `{Platform} `{World W}
    (before reply after : jsstring) (w : W) :
  Forall (fun c => isWhiteSpace c = true) before ->
  Forall (fun c => isWhiteSpace c = true) after ->
  parseToolCallResponse (before ++ reply ++ after) w = parseToolCallResponse reply w.
Proof.
  intros Hb Ha. rewrite !parseToolCallResponse_cases, trim_space by done.
  reflexivity.
Qed.

Lemma parseToolCallResponse_ignores_margin_witness :
  @parseToolCallResponse RefPlatform Script ScriptWorld
    ([10; 32; 160]%N ++ websearch_call ++ [13; 10]%N) (world_of [])
  = @parseToolCallResponse RefPlatform Script ScriptWorld websearch_call (world_of []).
Proof.
  apply (parseToolCallResponse_ignores_margin (H := RefPlatform) (W := Script)
           [10; 32; 160]%N websearch_call [13; 10]%N (world_of []));
    repeat constructor.
Defined.

(** X11. A fenced block that is found but does not parse ends the
    decoding: the decoder returns [null] and does not go on to the
    brace-to-brace span of the reply, even when that span is JSON. *)
Theorem fenced_block_ends_chain `{Platform} `{World W}
    (reply group : jsstring) (w : W) :
  (forall v, JSON_parse (trim reply) <> Ok v) ->
  match_fenced (trim reply) = Some group ->
  (forall v, JSON_parse group <> Ok v) ->
  parseToolCallResponse reply w = (None, w).
Proof.
  intros Hwhole Hfenced Hgroup. rewrite parseToolCallResponse_cases.
  unfold extractJSON. destruct (JSON_parse (trim reply)) as [v | e0].
  { destruct (Hwhole v eq_refl). }
  rewrite Hfenced. destruct (JSON_parse group) as [v | e].
  { destruct (Hgroup v eq_refl). }
  reflexivity.
Qed.

Lemma fenced_block_ends_chain_witness :
  (exists span,
      match_object (trim final_quoting_fence) = Some span /\
      @JSON_parse RefPlatform span
      = Ok (JObject [(js "final", JString (js "see " ++ FENCE ++ js "{x}" ++ FENCE ++ js " ok"))])) /\
  @parseToolCallResponse RefPlatform Script ScriptWorld final_quoting_fence (world_of [])
  = (None, world_of []).
Proof.
  split.
  - eexists. split; reflexivity.
  - apply (fenced_block_ends_chain (H := RefPlatform) (W := Script)
             final_quoting_fence (js "{x}") (world_of [])).
    + intros v Hv. vm_compute in Hv. discriminate Hv.
    + reflexivity.
    + intros v Hv. vm_compute in Hv. discriminate Hv.
Defined.

(** ** The messages sent upstream *)

Section UpstreamMessages.
Context `{P : Platform}.

Lemma isSystem_preprocessMessage (m : ChatMessage) :
  isSystem (preprocessMessage m) = isSystem m.
Proof.
  unfold preprocessMessage. destruct (tool_calls m); [reflexivity |].
  unfold str_eqb. destruct (bool_decide_reflect (role m = js "tool")) as [Hrole |];
    [| reflexivity].
  unfold isSystem, str_eqb. cbn [role]. rewrite Hrole. reflexivity.
Qed.

Lemma tool_calls_preprocessMessage (m : ChatMessage) :
  tool_calls (preprocessMessage m) = None.
Proof.
  unfold preprocessMessage. destruct (tool_calls m) eqn:Htc; [reflexivity |].
  destruct (str_eqb (role m) (js "tool")); [reflexivity | exact Htc].
Qed.

(** X12. [preprocessMessages] rewrites turn by turn: the list keeps its
    length and order; no turn that goes upstream carries [tool_calls];
    whether a turn is a system turn does not change; a turn with neither
    tool calls nor role [tool] is passed on unchanged; a tool result
    becomes a [user] turn whose content ends in the result's content;
    and a turn with tool calls keeps its role, role [tool] included,
    and has one line of text per call as its content. *)
Theorem preprocessMessages_turns (msgs : list ChatMessage) :
  Forall2
    (fun m m' =>
       tool_calls m' = None /\
       isSystem m' = isSystem m /\
       (tool_calls m = None -> role m <> js "tool" -> m' = m) /\
       (tool_calls m = None -> role m = js "tool" ->
        role m' = js "user" /\
        content m'
        = js "Tool result from " ++ or_default (name m) (js "tool") ++ js ":" ++ NL
            ++ content m) /\
       (forall calls, tool_calls m = Some calls ->
                      role m' = role m /\
                      content m' = join NL (map toolCallText calls)))
    msgs (preprocessMessages msgs).
Proof.
  unfold preprocessMessages. induction msgs as [| m msgs IH]; [constructor |].
  cbn [map]. constructor; [| exact IH].
  split; [apply tool_calls_preprocessMessage |].
  split; [apply isSystem_preprocessMessage |].
  unfold preprocessMessage. destruct (tool_calls m) as [calls |].
  - split; [discriminate |]. split; [discriminate |].
    intros calls' [= <-]. split; reflexivity.
  - unfold str_eqb. destruct (bool_decide_reflect (role m = js "tool")) as [Hrole | Hrole].
    + repeat split; try done.
    + repeat split; try done.
Qed.

Lemma filter_map_same {A} (keep : A -> bool) (f : A -> A) (l : list A) :
  (forall x, keep (f x) = keep x) ->
  List.filter keep (map f l) = map f (List.filter keep l).
Proof.
  intros Hkeep. induction l as [| x l IH]; [reflexivity |].
  cbn [map List.filter]. rewrite Hkeep. destruct (keep x); cbn [map]; congruence.
Qed.

Lemma existsb_map_same {A} (keep : A -> bool) (f : A -> A) (l : list A) :
  (forall x, keep (f x) = keep x) ->
  existsb keep (map f l) = existsb keep l.
Proof.
  intros Hkeep. induction l as [| x l IH]; [reflexivity |].
  cbn [map existsb]. rewrite Hkeep, IH. reflexivity.
Qed.

Lemma join_member (sep : jsstring) (parts : list jsstring) (p : jsstring) :
  p ∈ parts -> exists pre post, join sep parts = pre ++ p ++ post.
Proof.
  induction parts as [| q parts IH]; [intros Hin; by apply elem_of_nil in Hin |].
  intros Hin. apply elem_of_cons in Hin as [-> | Hin].
  - destruct parts as [| q' parts'].
    + exists [], []. cbn [join]. by rewrite app_nil_r.
    + exists [], (sep ++ join sep (q' :: parts')). reflexivity.
  - destruct (IH Hin) as (pre & post & Heq).
    destruct parts as [| q' parts']; [by apply elem_of_nil in Hin |].
    exists (q ++ sep ++ pre), post.
    change (join sep (q :: q' :: parts')) with (q ++ sep ++ join sep (q' :: parts')).
    rewrite Heq, <- !app_assoc. reflexivity.
Qed.

(** The instruction lists every tool it is built from. *)
Lemma buildToolInstruction_lists (tls : list ToolFunction) (t : ToolFunction) :
  t ∈ tls ->
  exists pre post, buildToolInstruction tls = pre ++ toolDescription t ++ post.
Proof.
  intros Hin.
  destruct (join_member NL (map toolDescription tls) (toolDescription t))
    as (pre1 & post1 & Hinner).
  { apply list_elem_of_In, in_map, list_elem_of_In, Hin. }
  unfold buildToolInstruction. cbv zeta.
  match goal with
  | |- exists pre post, join NL ?parts = _ =>
      destruct (join_member NL parts (join NL (map toolDescription tls)))
        as (pre2 & post2 & Houter)
  end.
  { apply list_elem_of_In. right. right. left. reflexivity. }
  exists (pre2 ++ pre1), (post1 ++ post2).
  rewrite Houter, Hinner, <- !app_assoc. reflexivity.
Qed.

(** X13. For a request that carries tools, the messages that go
    upstream hold as many system turns as the request, and one if the
    request has none; each of these system turns ends in the tool
    instruction and so lists every tool of the request, by name,
    description and parameters; and the other turns are the caller's
    other turns, preprocessed, in their order. *)
Theorem upstreamMessages_with_tools (request : Request) (tls : list ToolFunction) :
  tools request = Some tls ->
  tls <> [] ->
  let out := upstreamMessages request in
  length (List.filter isSystem out)
  = Nat.max 1 (length (List.filter isSystem (messages request))) /\
  Forall (fun m => exists before, content m = before ++ buildToolInstruction tls)
         (List.filter isSystem out) /\
  (forall t, t ∈ tls ->
     Forall (fun m => exists pre post, content m = pre ++ toolDescription t ++ post)
            (List.filter isSystem out)) /\
  List.filter (fun m => negb (isSystem m)) out
  = preprocessMessages (List.filter (fun m => negb (isSystem m)) (messages request)).
Proof.
  intros Htools Hne out. subst out. unfold upstreamMessages, hasTools.
  rewrite Htools. destruct tls as [| t0 tls0] eqn:Htls; [done |]. rewrite <- Htls.
  cbn [default]. unfold injectToolInstruction, preprocessMessages.
  rewrite (existsb_map_same isSystem preprocessMessage) by apply isSystem_preprocessMessage.
  assert (Hends : forall l,
            Forall (fun m => exists before, content m = before ++ buildToolInstruction tls)
                   (map (withInstruction (buildToolInstruction tls)) l)).
  { intros l. apply Forall_forall. intros m Hm.
    apply list_elem_of_In, in_map_iff in Hm as (m0 & <- & _).
    exists (content m0 ++ NL ++ NL). cbn [withInstruction content].
    by rewrite <- !app_assoc. }
  assert (Hlists : forall t l,
            t ∈ tls ->
            Forall (fun m => exists before, content m = before ++ buildToolInstruction tls) l ->
            Forall (fun m => exists pre post, content m = pre ++ toolDescription t ++ post) l).
  { intros t l Hin Hl. eapply Forall_impl; [exact Hl |]. intros m [before Hm].
    destruct (buildToolInstruction_lists tls t Hin) as (pre & post & Hinstr).
    exists (before ++ pre), post. rewrite Hm, Hinstr, <- !app_assoc. reflexivity. }
  destruct (existsb isSystem (messages request)) eqn:Hsys.
  - rewrite filter_system_inject, filter_others_inject.
    rewrite !(filter_map_same _ preprocessMessage)
      by (intros x; rewrite ?isSystem_preprocessMessage; reflexivity).
    rewrite !length_map.
    split.
    { pose proof (filter_system_some _ Hsys) as Hsome.
      destruct (List.filter isSystem (messages request)); [done | cbn [length]; lia]. }
    split; [apply Hends |]. split; [| reflexivity].
    intros t Hin. apply Hlists; [exact Hin | apply Hends].
  - cbn [List.filter]. change (isSystem (systemMessage (buildToolInstruction tls))) with true.
    cbn [negb].
    rewrite !(filter_map_same _ preprocessMessage)
      by (intros x; rewrite ?isSystem_preprocessMessage; reflexivity).
    rewrite (filter_system_none _ Hsys). cbn [map length].
    assert (Hone : Forall (fun m => exists before, content m = before ++ buildToolInstruction tls)
                     [systemMessage (buildToolInstruction tls)]).
    { constructor; [| constructor]. exists []. reflexivity. }
    split; [reflexivity |]. split; [exact Hone |]. split; [| reflexivity].
    intros t Hin. apply Hlists; [exact Hin | exact Hone].
Qed.

End UpstreamMessages.

Lemma upstreamMessages_with_tools_witness :
  let out := @upstreamMessages RefPlatform websearch_request in
  length (List.filter isSystem out) = 1%nat /\
  Forall (fun m => exists before,
            content m = before ++ @buildToolInstruction RefPlatform [websearch])
         (List.filter isSystem out) /\
  Forall (fun m => exists pre post,
            content m = pre ++ @toolDescription RefPlatform websearch ++ post)
         (List.filter isSystem out) /\
  List.filter (fun m => negb (isSystem m)) out = [user_turn (js "What is the weather?")].
Proof.
  destruct (upstreamMessages_with_tools (P := RefPlatform) websearch_request [websearch]
              eq_refl ltac:(discriminate))
    as (Hcount & Hends & Hlists & Hothers).
  split; [exact Hcount |]. split; [exact Hends |].
  split; [apply Hlists, list_elem_of_In; left; reflexivity | exact Hothers].
Defined.

(** ** The two patterns, in full *)

Lemma object_body_no_brace (s : jsstring) :
  RBRACE ∉ s -> object_body s = None.
Proof.
  induction s as [| c s IH]; [reflexivity |].
  intros Hno. apply not_elem_of_cons in Hno as [Hc Hs].
  cbn [object_body]. rewrite (IH Hs).
  destruct (N.eqb_spec c RBRACE) as [-> | _]; [done | reflexivity].
Qed.

Lemma object_body_longest (body post : jsstring) :
  RBRACE ∉ post ->
  object_body (body ++ RBRACE :: post) = Some (body ++ [RBRACE]).
Proof.
  intros Hpost. induction body as [| c body IH].
  - cbn [app object_body]. rewrite (object_body_no_brace _ Hpost).
    rewrite N.eqb_refl. reflexivity.
  - cbn [app object_body]. rewrite IH. reflexivity.
Qed.

(** X14. The object pattern finds the span from the first opening brace
    of the text to its last closing brace, and nothing else: it matches
    exactly when a closing brace follows the first opening brace, and
    then the match begins at that first opening brace and ends at the
    last closing brace of the text. *)
Theorem match_object_first_to_last (s m : jsstring) :
  match_object s = Some m <->
  exists pre body post,
    s = pre ++ m ++ post /\ m = LBRACE :: body ++ [RBRACE] /\
    (LBRACE ∉ pre) /\ (RBRACE ∉ post).
Proof.
  split; [apply match_object_Some |].
  intros (pre & body & post & -> & -> & Hpre & Hpost).
  unfold match_object. induction pre as [| c pre IH].
  - cbn [app search object_at]. rewrite N.eqb_refl.
    rewrite <- app_assoc. cbn [app]. rewrite (object_body_longest _ _ Hpost).
    reflexivity.
  - apply not_elem_of_cons in Hpre as [Hc Hpre].
    cbn [app search object_at].
    destruct (N.eqb_spec c LBRACE) as [-> | _]; [done |]. apply IH, Hpre.
Qed.

Lemma star_greedy_run {A} (p : N -> bool) (k : jsstring -> option A)
    (run rest : jsstring) (x : A) :
  Forall (fun c => p c = true) run ->
  k rest = Some x ->
  is_Some (star_greedy p k (run ++ rest)).
Proof.
  intros Hrun Hk. induction Hrun as [| c run Hc _ IH].
  - cbn [app]. destruct rest as [| d rest]; cbn [star_greedy].
    + rewrite Hk. eauto.
    + destruct (p d); [| rewrite Hk; eauto].
      destruct (star_greedy p k rest); [eauto | rewrite Hk; eauto].
  - cbn [app star_greedy]. rewrite Hc.
    destruct IH as [y ->]. eauto.
Qed.

Lemma startsWith_self (needle rest : jsstring) :
  startsWith needle (needle ++ rest) = true.
Proof.
  induction needle as [| c needle IH]; [reflexivity |].
  cbn [app startsWith]. rewrite N.eqb_refl. exact IH.
Qed.

Lemma fence_tail_found (space post : jsstring) :
  Forall (fun c => isWhiteSpace c = true) space ->
  fence_tail (space ++ FENCE ++ post) = true.
Proof.
  intros Hsp. unfold fence_tail.
  destruct (star_greedy_run isWhiteSpace
              (fun r => if startsWith FENCE r then Some tt else None)
              space (FENCE ++ post) tt Hsp) as [[] ->]; [| reflexivity].
  rewrite startsWith_self. reflexivity.
Qed.

Lemma fence_body_found (acc body rest : jsstring) :
  fence_tail rest = true ->
  is_Some (fence_body acc (body ++ RBRACE :: rest)).
Proof.
  intros Htail. revert acc. induction body as [| c body IH]; intros acc.
  - cbn [app fence_body]. rewrite N.eqb_refl, Htail. eauto.
  - cbn [app fence_body].
    destruct ((c =? RBRACE)%N && fence_tail (body ++ RBRACE :: rest)); [eauto |].
    apply IH.
Qed.

Lemma fence_group_found (space1 body space2 post : jsstring) :
  Forall (fun c => isWhiteSpace c = true) space1 ->
  Forall (fun c => isWhiteSpace c = true) space2 ->
  is_Some (fence_group (space1 ++ (LBRACE :: body ++ [RBRACE]) ++ space2 ++ FENCE ++ post)).
Proof.
  intros Hsp1 Hsp2. unfold fence_group.
  destruct (fence_body_found [LBRACE] body (space2 ++ FENCE ++ post)
              (fence_tail_found _ _ Hsp2)) as [g Hg].
  eapply star_greedy_run; [exact Hsp1 |].
  cbn [app]. rewrite N.eqb_refl, <- app_assoc. cbn [app]. exact Hg.
Qed.

Lemma search_found {A} (m : jsstring -> option A) (pre rest : jsstring) :
  is_Some (m rest) -> is_Some (search m (pre ++ rest)).
Proof.
  intros [x Hx]. induction pre as [| c pre IH].
  - cbn [app]. destruct rest; cbn [search]; rewrite Hx; eauto.
  - cbn [app search]. destruct (m (c :: pre ++ rest)); [eauto | exact IH].
Qed.

(** X15. The fence pattern. A match is what it should be: some fence
    of the text, then [json] or nothing, white space, the group, white
    space, a fence; and the group runs from an opening to a closing
    brace. And no such block is missed: a text that holds a fence, then
    [json] or nothing, white space, a brace-to-brace text, white space
    and a fence, has a match. *)
Theorem match_fenced_blocks (s : jsstring) :
  (forall g, match_fenced s = Some g ->
     exists pre lang space1 body space2 post,
       s = pre ++ FENCE ++ lang ++ space1 ++ g ++ space2 ++ FENCE ++ post /\
       (lang = [] \/ lang = js "json") /\
       Forall (fun c => isWhiteSpace c = true) space1 /\
       Forall (fun c => isWhiteSpace c = true) space2 /\
       g = LBRACE :: body ++ [RBRACE]) /\
  (forall pre lang space1 body space2 post,
     s = pre ++ FENCE ++ lang ++ space1 ++ (LBRACE :: body ++ [RBRACE])
           ++ space2 ++ FENCE ++ post ->
     lang = [] \/ lang = js "json" ->
     Forall (fun c => isWhiteSpace c = true) space1 ->
     Forall (fun c => isWhiteSpace c = true) space2 ->
     is_Some (match_fenced s)).
Proof.
  split; [intros g; apply match_fenced_Some |].
  intros pre lang space1 body space2 post -> Hlang Hsp1 Hsp2.
  unfold match_fenced. apply search_found. unfold fence_at.
  rewrite startsWith_self.
  change (drop 3 (FENCE ++ ?r)) with r.
  pose proof (fence_group_found space1 body space2 post Hsp1 Hsp2) as Hgroup.
  destruct Hlang as [-> | ->].
  - cbn [app].
    destruct (startsWith (js "json") _) eqn:Hjson; [| exact Hgroup].
    exfalso. destruct Hsp1 as [| c space1 Hc _].
    + cbn [app] in Hjson. vm_compute in Hjson. discriminate.
    + cbn [app] in Hjson. change (js "json") with (106 :: js "son")%N in Hjson.
      cbn [startsWith] in Hjson. destruct (N.eqb_spec 106 c) as [<- | _];
        [vm_compute in Hc |]; discriminate.
  - rewrite startsWith_self.
    change (drop 4 (js "json" ++ ?r)) with r.
    destruct Hgroup as [g ->]. eauto.
Qed.

(** ** The HTTP boundary *)

Lemma split_from_skip (sep passed rest cur : jsstring) :
  split_from sep (length passed) cur (passed ++ rest) = split_from sep 0 cur rest.
Proof.
  induction passed as [| c passed IH]; [reflexivity |].
  cbn [length app split_from]. exact IH.
Qed.

Lemma split_from_cons (sep : jsstring) (skip : nat) (cur s : jsstring) :
  exists part parts, split_from sep skip cur s = part :: parts.
Proof.
  revert skip cur. induction s as [| c s IH]; intros skip cur; cbn [split_from].
  - eauto.
  - destruct skip as [| skip']; [| apply IH].
    destruct (startsWith sep (c :: s)); [eauto | apply IH].
Qed.

Lemma join_cons (sep part : jsstring) (parts : list jsstring) :
  parts <> [] -> join sep (part :: parts) = part ++ sep ++ join sep parts.
Proof. destruct parts; [done | reflexivity]. Qed.

Lemma split_from_join (sep : jsstring) (n : nat) :
  sep <> [] ->
  forall s cur, (length s <= n)%nat ->
    join sep (split_from sep 0 cur s) = rev cur ++ s.
Proof.
  intros Hsep. induction n as [| n IH]; intros s cur Hlen.
  - destruct s; [| cbn in Hlen; lia]. cbn. by rewrite app_nil_r.
  - destruct s as [| c r]; [cbn; by rewrite app_nil_r |].
    cbn [split_from]. destruct (startsWith sep (c :: r)) eqn:Hstart.
    + destruct (startsWith_app _ _ Hstart) as [rest Hrest].
      destruct sep as [| d passed]; [done |]. injection Hrest as <- ->.
      replace (length (c :: passed) - 1)%nat with (length passed) by (cbn; lia).
      rewrite split_from_skip.
      destruct (split_from_cons (c :: passed) 0 [] rest) as (part & parts & Hparts).
      rewrite join_cons by (rewrite Hparts; discriminate).
      rewrite IH by (cbn in Hlen; rewrite length_app in Hlen; lia).
      reflexivity.
    + rewrite IH by (cbn in Hlen; lia). cbn [rev]. by rewrite <- app_assoc.
Qed.

(** [split] and [join] fit: joining the parts with the separator gives
    the text back. *)
Lemma split_join (s sep : jsstring) :
  sep <> [] -> join sep (split s sep) = s.
Proof.
  intros Hsep. unfold split. rewrite (split_from_join sep (length s)) by done.
  reflexivity.
Qed.

Lemma includes_cons_false (c : N) (s needle : jsstring) :
  includes (c :: s) needle = false ->
  startsWith needle (c :: s) = false /\ includes s needle = false.
Proof.
  cbn [includes]. intros Hno. apply orb_false_iff in Hno as [Hstart Hrest].
  split; [exact Hstart |].
  destruct s; exact Hrest.
Qed.

Lemma includes_nil_false (needle : jsstring) :
  includes [] needle = false -> needle <> [].
Proof. destruct needle; [discriminate | done]. Qed.

(** A text without the separator is one part. *)
Lemma split_from_whole (sep s cur : jsstring) :
  includes s sep = false -> split_from sep 0 cur s = [rev cur ++ s].
Proof.
  revert cur. induction s as [| c s IH]; intros cur Hno.
  - cbn. by rewrite app_nil_r.
  - destruct (includes_cons_false _ _ _ Hno) as [Hstart Hrest].
    cbn [split_from]. rewrite Hstart, IH by exact Hrest.
    cbn [rev]. by rewrite <- app_assoc.
Qed.

(** The first part of a text that holds [//]: the text before the
    leftmost [//]. *)
Lemma split_from_slashes (p k cur : jsstring) :
  includes (p ++ js "/") (js "//") = false ->
  split_from (js "//") 0 cur (p ++ js "//" ++ k)
  = (rev cur ++ p) :: split_from (js "//") 0 [] k.
Proof.
  revert cur. induction p as [| c p IH]; intros cur Hno.
  - change ([] ++ js "//" ++ k) with (47 :: 47 :: k)%N.
    cbn [split_from]. change (startsWith (js "//") (47 :: 47 :: k)%N) with true.
    cbn iota. by rewrite app_nil_r.
  - destruct (includes_cons_false _ _ _ Hno) as [Hstart Hrest].
    cbn [app split_from].
    assert (Hhere : startsWith (js "//") (c :: p ++ js "//" ++ k) = false).
    { change (js "//") with [47; 47]%N in *. cbn [startsWith] in *.
      destruct (N.eqb_spec 47 c) as [<- | _]; [| reflexivity].
      destruct p as [| d p]; [discriminate Hstart |].
      cbn [app] in *. destruct (47 =? d)%N; [discriminate Hstart | reflexivity]. }
    rewrite Hhere, IH by exact Hrest. cbn [rev]. by rewrite <- app_assoc.
Qed.

Lemma split_two (p k : jsstring) :
  includes (p ++ js "/") (js "//") = false ->
  includes k (js "//") = false ->
  split (p ++ js "//" ++ k) (js "//") = [p; k].
Proof.
  intros Hp Hk. unfold split. rewrite split_from_slashes by exact Hp.
  rewrite split_from_whole by exact Hk. reflexivity.
Qed.

Lemma startsWith_app_true (needle s rest : jsstring) :
  startsWith needle s = true -> startsWith needle (s ++ rest) = true.
Proof.
  revert s. induction needle as [| c needle IH]; intros s; [reflexivity |].
  destruct s as [| d s]; [discriminate |]. cbn [app startsWith].
  intros [Hc Hs]%andb_true_iff. rewrite Hc. apply IH, Hs.
Qed.

Lemma includes_suffix_false (pre post needle : jsstring) :
  includes (pre ++ post) needle = false -> includes post needle = false.
Proof.
  induction pre as [| c pre IH]; [done |].
  cbn [app]. intros Hno. apply includes_cons_false in Hno as [_ Hno]. auto.
Qed.

(** No part of a split text holds the separator. *)
Lemma split_from_parts_clean (sep : jsstring) (n : nat) :
  sep <> [] ->
  forall s cur, (length s <= n)%nat ->
    (forall pre post, rev cur = pre ++ post -> post <> [] ->
                      startsWith sep (post ++ s) = false) ->
    Forall (fun part => includes part sep = false) (split_from sep 0 cur s).
Proof.
  intros Hsep.
  assert (Hclean : forall cur s,
            (forall pre post, rev cur = pre ++ post -> post <> [] ->
                              startsWith sep (post ++ s) = false) ->
            includes (rev cur) sep = false).
  { intros cur s Hinv.
    assert (Hgen : forall pre post, rev cur = pre ++ post -> includes post sep = false).
    { intros pre post. revert pre. induction post as [| c post IHp]; intros pre Heq.
      - destruct sep; [done | reflexivity].
      - cbn [includes]. apply orb_false_iff. split.
        + destruct (startsWith sep (c :: post)) eqn:Hs; [| reflexivity].
          rewrite <- (Hinv pre (c :: post) Heq ltac:(discriminate)).
          symmetry. apply startsWith_app_true, Hs.
        + specialize (IHp (pre ++ [c])). rewrite <- app_assoc in IHp.
          specialize (IHp Heq). destruct post; [| exact IHp].
          destruct sep; [done | reflexivity]. }
    apply (Hgen []). reflexivity. }
  induction n as [| n IH]; intros s cur Hlen Hinv.
  - destruct s; [| cbn in Hlen; lia]. cbn [split_from].
    constructor; [| constructor]. eapply Hclean, Hinv.
  - destruct s as [| c r].
    { cbn [split_from]. constructor; [| constructor]. eapply Hclean, Hinv. }
    cbn [split_from]. destruct (startsWith sep (c :: r)) eqn:Hstart.
    + destruct (startsWith_app _ _ Hstart) as [rest Hrest].
      destruct sep as [| d passed]; [done |]. injection Hrest as <- ->.
      replace (length (c :: passed) - 1)%nat with (length passed) by (cbn; lia).
      rewrite split_from_skip.
      constructor; [eapply Hclean, Hinv |].
      apply IH; [cbn in Hlen; rewrite length_app in Hlen; lia |].
      intros pre post Heq Hpost. destruct pre; destruct post; try done.
    + apply IH; [cbn in Hlen; lia |].
      intros pre post Heq Hpost. cbn [rev] in Heq.
      destruct (decide (post = [c])) as [-> | Hne]; [exact Hstart |].
      assert (Hsplit : exists post', post = post' ++ [c] /\ post' <> []
                                     /\ rev cur = pre ++ post').
      { destruct (exists_last Hpost) as (post' & z & ->).
        rewrite app_assoc in Heq. apply app_inj_tail in Heq as [Heq <-].
        exists post'. split; [reflexivity |]. split; [| exact Heq].
        intros ->. by apply Hne. }
      destruct Hsplit as (post' & -> & Hpost' & Heq').
      rewrite <- app_assoc. apply (Hinv pre post' Heq' Hpost').
Qed.

Lemma split_parts_clean (s sep : jsstring) :
  sep <> [] -> Forall (fun part => includes part sep = false) (split s sep).
Proof.
  intros Hsep. unfold split. apply (split_from_parts_clean sep (length s)); [done.. |].
  intros pre post Heq Hpost. destruct pre; destruct post; done.
Qed.

Lemma authenticateApiKey_inl (authorization providerHeader : option jsstring)
    (key : jsstring) (reply : HttpReply) :
  authenticateApiKey authorization providerHeader key = inl reply ->
  exists text,
    reply = {| http_status := 401;
               http_body := ErrorBody text (js "authentication_error") None |}.
Proof.
  unfold authenticateApiKey. intros Hdenied.
  repeat match type of Hdenied with
         | context [match ?x with _ => _ end] => destruct x
         end;
    first [discriminate | injection Hdenied as <-; eauto].
Qed.

Lemma authenticateApiKey_inr (authorization providerHeader : option jsstring)
    (key provider : jsstring) :
  authenticateApiKey authorization providerHeader key = inr provider ->
  exists token,
    authorization = Some (js "Bearer " ++ token) /\
    ((providerHeader = Some provider /\ provider <> [] /\ token = key) \/
     ((providerHeader = None \/ providerHeader = Some []) /\
      split token (js "//") = [provider; key])).
Proof.
  unfold authenticateApiKey. intros Hpassed.
  destruct authorization as [authHeader |]; [| discriminate].
  destruct (startsWith (js "Bearer ") authHeader) eqn:Hbearer; [| discriminate].
  apply startsWith_app in Hbearer as [token ->]. exists token.
  split; [reflexivity |].
  change (drop 7 (js "Bearer " ++ token)) with token in Hpassed.
  unfold str_eqb in Hpassed.
  destruct providerHeader as [[| c r] |].
  - destruct (split token (js "//")) as [| p [| k [| ? ?]]]; try discriminate.
    case_bool_decide; [| discriminate]. injection Hpassed as ->. subst k.
    right. auto.
  - case_bool_decide; [| discriminate]. injection Hpassed as <-.
    left. auto.
  - destruct (split token (js "//")) as [| p [| k [| ? ?]]]; try discriminate.
    case_bool_decide; [| discriminate]. injection Hpassed as ->. subst k.
    right. auto.
Qed.

(** X16 ([authenticateApiKey], what passing means). A request passes the
    middleware only with an [Authorization] header that starts with
    [Bearer ] and carries the configured key: with a non-empty
    [X-Provider] header the token is the key and the provider is the
    header's value; without one the token is the provider, [//] and the
    key, in this order. *)
Theorem authenticateApiKey_sound (authorization providerHeader : option jsstring)
    (key provider : jsstring) :
  authenticateApiKey authorization providerHeader key = inr provider ->
  exists token,
    authorization = Some (js "Bearer " ++ token) /\
    ((providerHeader = Some provider /\ provider <> [] /\ token = key) \/
     ((providerHeader = None \/ providerHeader = Some []) /\
      token = provider ++ js "//" ++ key)).
Proof.
  intros Hpassed.
  destruct (authenticateApiKey_inr _ _ _ _ Hpassed) as (token & Hauth & Hmode).
  exists token. split; [exact Hauth |].
  destruct Hmode as [Hheader | [Hnone Hparts]]; [left; exact Hheader | right].
  split; [exact Hnone |].
  rewrite <- (split_join token (js "//")) by discriminate.
  rewrite Hparts. reflexivity.
Qed.

Lemma authenticateApiKey_sound_witness :
  authenticateApiKey (Some (js "Bearer ollama//secret")) None (js "secret")
  = inr (js "ollama") /\
  exists token,
    Some (js "Bearer ollama//secret") = Some (js "Bearer " ++ token) /\
    ((@None jsstring = Some (js "ollama") /\ js "ollama" <> [] /\ token = js "secret") \/
     ((@None jsstring = None \/ @None jsstring = Some []) /\
      token = js "ollama" ++ js "//" ++ js "secret")).
Proof.
  split; [reflexivity |].
  apply (authenticateApiKey_sound (Some (js "Bearer ollama//secret")) None
           (js "secret") (js "ollama")).
  reflexivity.
Defined.

(** X17 ([authenticateApiKey], who passes). The configured key passes
    with any non-empty [X-Provider] header, and, without such a header, in
    a token [provider//key], provided the key holds no [//] and the
    provider followed by a slash holds none either (it has no [//] and
    does not end in a slash); the provider may be empty. *)
Theorem authenticateApiKey_complete (providerHeader : option jsstring)
    (token key provider : jsstring) :
  (providerHeader = Some provider /\ provider <> [] /\ token = key) \/
  ((providerHeader = None \/ providerHeader = Some []) /\
   token = provider ++ js "//" ++ key /\
   includes (provider ++ js "/") (js "//") = false /\
   includes key (js "//") = false) ->
  authenticateApiKey (Some (js "Bearer " ++ token)) providerHeader key
  = inr provider.
Proof.
  intros Hmode. unfold authenticateApiKey.
  change (startsWith (js "Bearer ") (js "Bearer " ++ token)) with true. cbn iota.
  change (drop 7 (js "Bearer " ++ token)) with token.
  destruct Hmode as [(-> & Hprovider & ->) | (Hnone & -> & Hp & Hk)].
  - destruct provider as [| c r]; [done |].
    unfold str_eqb. rewrite bool_decide_eq_true_2 by reflexivity. reflexivity.
  - rewrite (split_two _ _ Hp Hk).
    unfold str_eqb. rewrite bool_decide_eq_true_2 by reflexivity.
    destruct Hnone as [-> | ->]; reflexivity.
Qed.

Lemma authenticateApiKey_complete_witness :
  authenticateApiKey (Some (js "Bearer " ++ js "" ++ js "//" ++ js "secret"))
    (Some []) (js "secret")
  = inr (js "").
Proof.
  apply (authenticateApiKey_complete (Some []) (js "" ++ js "//" ++ js "secret")
           (js "secret") (js "")).
  right. split; [right; reflexivity |].
  split; [reflexivity |]. split; reflexivity.
Defined.

(** X18 ([authenticateApiKey], a key with [//]). When the configured key
    holds [//], no request without an [X-Provider] header passes,
    whatever its [Authorization] header: each is answered 401. *)
Theorem slashed_key_needs_provider_header (authorization providerHeader : option jsstring)
    (key : jsstring) :
  includes key (js "//") = true ->
  providerHeader = None \/ providerHeader = Some [] ->
  exists text,
    authenticateApiKey authorization providerHeader key
    = inl {| http_status := 401;
             http_body := ErrorBody text (js "authentication_error") None |}.
Proof.
  intros Hkey Hnone.
  destruct (authenticateApiKey authorization providerHeader key)
    as [reply | provider] eqn:Hauth.
  - destruct (authenticateApiKey_inl _ _ _ _ Hauth) as [text ->]. eauto.
  - exfalso.
    destruct (authenticateApiKey_inr _ _ _ _ Hauth)
      as (token & _ & [(Hsome & Hne & _) | (_ & Hparts)]).
    + destruct Hnone as [-> | ->]; [discriminate |].
      injection Hsome as <-. done.
    + pose proof (split_parts_clean token (js "//") ltac:(discriminate)) as Hclean.
      rewrite Hparts in Hclean.
      apply Forall_cons in Hclean as [_ Hclean].
      apply Forall_cons in Hclean as [Hclean _].
      rewrite Hkey in Hclean. discriminate.
Qed.

Lemma slashed_key_needs_provider_header_witness :
  exists text,
    authenticateApiKey (Some (js "Bearer ollama//a//b")) None (js "a//b")
    = inl {| http_status := 401;
             http_body := ErrorBody text (js "authentication_error") None |}.
Proof.
  apply (slashed_key_needs_provider_header (Some (js "Bearer ollama//a//b")) None
           (js "a//b")).
  - reflexivity.
  - left. reflexivity.
Defined.

Section EndpointFacts.
Context {M Handle : Type} `{R : Registry M Handle}.

(** X19 ([POST /v1/chat/completions], a 200). A 200 reply is the
    provider's response to the body's messages and parameters under a
    non-empty model: the body's own model, or, when the body names none,
    the default model the configuration has for the provider. *)
Theorem chatCompletions_200 (config : Config) (providerName : jsstring)
    (body : ChatBody) (m m' : M) (reply : HttpReply) :
  chatCompletions config providerName body m = (reply, m') ->
  http_status reply = 200 ->
  exists msgs mdl provider m1 response,
    body_messages body = Some msgs /\ mdl <> [] /\
    (body_model body = Some mdl \/
     ((body_model body = None \/ body_model body = Some []) /\
      configuredModel (config_provider config) providerName = Some mdl)) /\
    getProvider providerName m = (Ok provider, m1) /\
    provider_sendRequest provider
      {| model := mdl; messages := msgs;
         temperature := body_temperature body;
         max_tokens := body_max_tokens body;
         tools := body_tools body;
         tool_choice := body_tool_choice body |} m1 = (Ok response, m') /\
    reply = {| http_status := 200; http_body := ResponseBody response |}.
Proof.
  unfold chatCompletions. intros Hrun Hstatus.
  destruct (body_messages body) as [msgs |];
    [| injection Hrun as <- <-; discriminate].
  destruct (getProvider providerName m) as [[provider | e] m1];
    [| injection Hrun as <- <-; discriminate].
  exists msgs.
  destruct (body_model body) as [[| c r] |].
  - destruct (configuredModel (config_provider config) providerName)
      as [[| c r] |]; try (injection Hrun as <- <-; discriminate).
    exists (c :: r), provider, m1.
    destruct (provider_sendRequest _ _ m1) as [[response | e] m2] eqn:Hsend;
      injection Hrun as <- <-; [| discriminate].
    exists response. repeat split; auto; discriminate.
  - exists (c :: r), provider, m1.
    destruct (provider_sendRequest _ _ m1) as [[response | e] m2] eqn:Hsend;
      injection Hrun as <- <-; [| discriminate].
    exists response. repeat split; auto; discriminate.
  - destruct (configuredModel (config_provider config) providerName)
      as [[| c r] |]; try (injection Hrun as <- <-; discriminate).
    exists (c :: r), provider, m1.
    destruct (provider_sendRequest _ _ m1) as [[response | e] m2] eqn:Hsend;
      injection Hrun as <- <-; [| discriminate].
    exists response. repeat split; auto; discriminate.
Qed.

End EndpointFacts.

Lemma chatCompletions_200_witness :
  exists msgs mdl provider m1 response,
    body_messages (chat_body None (Some [user_turn (js "Hi")])) = Some msgs /\
    mdl <> [] /\
    (body_model (chat_body None (Some [user_turn (js "Hi")])) = Some mdl \/
     ((body_model (chat_body None (Some [user_turn (js "Hi")])) = None \/
       body_model (chat_body None (Some [user_turn (js "Hi")])) = Some []) /\
      configuredModel (config_provider echo_config) (js "echo") = Some mdl)) /\
    getProvider (js "echo") 0%nat = (Ok provider, m1) /\
    provider_sendRequest provider
      {| model := mdl; messages := msgs;
         temperature := None; max_tokens := None;
         tools := None; tool_choice := None |} m1 = (Ok response, 1%nat) /\
    {| http_status := 200;
       http_body :=
         ResponseBody
           (echo_response
              {| model := js "gpt-oss:120b"; messages := [user_turn (js "Hi")];
                 temperature := None; max_tokens := None;
                 tools := None; tool_choice := None |}) |}
    = {| http_status := 200; http_body := ResponseBody response |}.
Proof.
  apply (chatCompletions_200 (R := EchoRegistry) echo_config (js "echo")
           (chat_body None (Some [user_turn (js "Hi")])) 0%nat 1%nat).
  - reflexivity.
  - reflexivity.
Defined.

Section EndpointErrors.
Context {M Handle : Type} `{R : Registry M Handle}.

(** X20 ([POST /v1/chat/completions], a 400). The endpoint answers 400
    exactly when the body has no messages, or when the provider loads
    and neither the body nor the provider's configuration names a model;
    and then no request has reached a provider: the registry is as it
    was, or as loading the provider left it. *)
Theorem chatCompletions_400 (config : Config) (providerName : jsstring)
    (body : ChatBody) (m : M) :
  (http_status (fst (chatCompletions config providerName body m)) = 400 <->
   body_messages body = None \/
   ((exists provider m1, getProvider providerName m = (Ok provider, m1)) /\
    (body_model body = None \/ body_model body = Some []) /\
    (configuredModel (config_provider config) providerName = None \/
     configuredModel (config_provider config) providerName = Some []))) /\
  (http_status (fst (chatCompletions config providerName body m)) = 400 ->
   snd (chatCompletions config providerName body m)
   = match body_messages body with
     | Some _ => snd (getProvider providerName m)
     | None => m
     end).
Proof.
  unfold chatCompletions.
  destruct (body_messages body) as [msgs |].
  2: { split; [split; auto | reflexivity]. }
  destruct (getProvider providerName m) as [[provider | e] m1].
  2: { split; [split | discriminate]; [discriminate |].
       intros [? | ((? & ? & ?) & _)]; discriminate. }
  destruct (body_model body) as [[| c r] |];
    [destruct (configuredModel (config_provider config) providerName)
       as [[| c r] |] | |
     destruct (configuredModel (config_provider config) providerName)
       as [[| c r] |]];
    cbn iota beta;
    try (split; [split; [intros _; right; eauto 10 | reflexivity] | reflexivity]);
    destruct (provider_sendRequest _ _ m1) as [[response | e] m2];
    (split; [split | discriminate]; [discriminate |]);
    intros [? | (_ & Hbody & Hconf)]; try discriminate;
    try (destruct Hbody; discriminate); destruct Hconf; discriminate.
Qed.

Lemma serverError_body (e : Error) :
  exists text,
    text <> [] /\
    (message e = Some text \/ text = js "Internal server error") /\
    serverError e
    = {| http_status := 500;
         http_body :=
           ErrorBody text (js "server_error")
             (Some match provider_error e with
                   | Some pe => UpstreamDetail pe
                   | None => ThrownDetail e
                   end) |}.
Proof.
  unfold serverError. destruct (message e) as [[| c r] |]; cbn [or_default].
  - exists (js "Internal server error"). split; [discriminate | auto].
  - exists (c :: r). split; [discriminate | auto].
  - exists (js "Internal server error"). split; [discriminate | auto].
Qed.

(** X21 (the two endpoints, a 500). A 500 reply of the chat endpoint or
    of the usage endpoint reports an error thrown by the registry:
    loading the provider failed, or the provider's call did. Its type is
    [server_error], its message is not empty (the error's own, or
    [Internal server error]), and its [provider_error] is the upstream
    error attached to the thrown one, or else the thrown error. *)
Theorem endpoint_500 (config : Config) (providerName : jsstring)
    (body : ChatBody) (m m' : M) (reply : HttpReply) :
  chatCompletions config providerName body m = (reply, m') \/
  usageEndpoint providerName m = (reply, m') ->
  http_status reply = 500 ->
  exists e text,
    (getProvider providerName m = (Throw e, m') \/
     exists provider m1,
       getProvider providerName m = (Ok provider, m1) /\
       (provider_getUsage provider m1 = (Throw e, m') \/
        exists request, provider_sendRequest provider request m1 = (Throw e, m'))) /\
    text <> [] /\
    (message e = Some text \/ text = js "Internal server error") /\
    http_body reply
    = ErrorBody text (js "server_error")
        (Some match provider_error e with
              | Some pe => UpstreamDetail pe
              | None => ThrownDetail e
              end).
Proof.
  intros Hrun Hstatus.
  assert (Hthrown : exists e,
             reply = serverError e /\
             (getProvider providerName m = (Throw e, m') \/
              exists provider m1,
                getProvider providerName m = (Ok provider, m1) /\
                (provider_getUsage provider m1 = (Throw e, m') \/
                 exists request,
                   provider_sendRequest provider request m1 = (Throw e, m')))).
  { destruct Hrun as [Hrun | Hrun].
    - unfold chatCompletions in Hrun.
      destruct (body_messages body) as [msgs |];
        [| injection Hrun as <- <-; discriminate].
      destruct (getProvider providerName m) as [[provider | e] m1];
        [| injection Hrun as <- <-; eauto].
      destruct (body_model body) as [[| c r] |];
        [destruct (configuredModel (config_provider config) providerName)
           as [[| c r] |] | |
         destruct (configuredModel (config_provider config) providerName)
           as [[| c r] |]];
        cbn iota beta in Hrun;
        try (injection Hrun as <- <-; discriminate);
        destruct (provider_sendRequest _ _ m1) as [[response | e] m2] eqn:Hsend;
        injection Hrun as <- <-; try discriminate;
        exists e; (split; [reflexivity |]); right; eauto 10.
    - unfold usageEndpoint in Hrun.
      destruct (getProvider providerName m) as [[provider | e] m1];
        [| injection Hrun as <- <-; eauto].
      destruct (provider_getUsage provider m1) as [[info | e] m2] eqn:Husage;
        injection Hrun as <- <-; [discriminate |].
      exists e. split; [reflexivity |]. right. eauto 10. }
  destruct Hthrown as (e & -> & Hcause).
  destruct (serverError_body e) as (text & Htext & Hmessage & ->).
  exists e, text. auto.
Qed.

End EndpointErrors.

Lemma endpoint_500_witness :
  exists e text,
    (getProvider (js "ghost") 0%nat = (Throw e, 0%nat) \/
     exists provider m1,
       getProvider (js "ghost") 0%nat = (Ok provider, m1) /\
       (provider_getUsage provider m1 = (Throw e, 0%nat) \/
        exists request, provider_sendRequest provider request m1 = (Throw e, 0%nat))) /\
    text <> [] /\
    (message e = Some text \/ text = js "Internal server error") /\
    http_body (serverError (new_Error (js "Provider ghost not found in config")))
    = ErrorBody text (js "server_error")
        (Some match provider_error e with
              | Some pe => UpstreamDetail pe
              | None => ThrownDetail e
              end).
Proof.
  apply (endpoint_500 (R := EchoRegistry) echo_config (js "ghost")
           (chat_body None (Some [user_turn (js "Hi")])) 0%nat 0%nat).
  - left. reflexivity.
  - reflexivity.
Defined.

(** ** ProviderTester *)

Section TesterFacts.
Context `{P : Platform} {M Handle : Type} `{R : Registry M Handle}.
Variables (config : Config) (prompt expectedResponse : jsstring).

Lemma testProvider_names (providerName : jsstring) (m m' : M) (entry : FailedEntry) :
  testProvider config prompt expectedResponse providerName m = (Some entry, m') ->
  failed_provider entry = providerName.
Proof.
  unfold testProvider. intros Hrun.
  repeat match type of Hrun with
         | context [match ?x with _ => _ end] => destruct x
         end;
    first [discriminate | injection Hrun as <- <-; reflexivity].
Qed.

Lemma testProvider_passed (providerName : jsstring) (m m' : M) :
  testProvider config prompt expectedResponse providerName m = (None, m') ->
  exists provider m1 mdl response text,
    getProvider providerName m = (Ok provider, m1) /\
    configuredModel (config_provider config) providerName = Some mdl /\
    mdl <> [] /\
    provider_sendRequest provider (testRequest mdl prompt) m1 = (Ok response, m') /\
    actualContent response = Ok text /\
    includes (toLowerCase text) (toLowerCase expectedResponse) = true.
Proof.
  unfold testProvider. intros Hrun.
  destruct (getProvider providerName m) as [[provider | e] m1]; [| discriminate].
  destruct (configuredModel (config_provider config) providerName)
    as [[| c r] |]; try discriminate.
  destruct (provider_sendRequest provider _ m1) as [[response | e] m2] eqn:Hsend;
    [| discriminate].
  destruct (actualContent response) as [text | e] eqn:Hcontent; [| discriminate].
  destruct (includes (toLowerCase text) (toLowerCase expectedResponse)) eqn:Hin;
    [| discriminate].
  injection Hrun as <-.
  exists provider, m1, (c :: r), response, text. repeat split; auto; discriminate.
Qed.

Lemma testProviders_S (providerName : jsstring) (rest : list jsstring) (m : M) :
  testProviders config prompt expectedResponse (providerName :: rest) m
  = (match fst (testProvider config prompt expectedResponse providerName m) with
     | Some e =>
         e :: fst (testProviders config prompt expectedResponse rest
                     (snd (testProvider config prompt expectedResponse providerName m)))
     | None =>
         fst (testProviders config prompt expectedResponse rest
                (snd (testProvider config prompt expectedResponse providerName m)))
     end,
     snd (testProviders config prompt expectedResponse rest
            (snd (testProvider config prompt expectedResponse providerName m)))).
Proof.
  cbn [testProviders].
  destruct (testProvider config prompt expectedResponse providerName m) as [entry m1].
  cbn [fst snd].
  destruct (testProviders config prompt expectedResponse rest m1) as [entries m2].
  reflexivity.
Qed.

Lemma testProviders_sublist (names : list jsstring) (m : M) :
  sublist (map failed_provider
             (fst (testProviders config prompt expectedResponse names m)))
          names.
Proof.
  revert m. induction names as [| providerName rest IH]; intros m.
  - constructor.
  - rewrite testProviders_S. cbn [fst].
    destruct (testProvider config prompt expectedResponse providerName m)
      as [[entry |] m1] eqn:Hone; cbn [fst snd].
    + cbn [map]. rewrite (testProvider_names _ _ _ _ Hone).
      apply sublist_skip, IH.
    + apply sublist_cons, IH.
Qed.

Lemma testProviders_passed (names : list jsstring) (m : M) (providerName : jsstring) :
  In providerName names ->
  ~ In providerName
      (map failed_provider (fst (testProviders config prompt expectedResponse names m))) ->
  exists m0 m0',
    testProvider config prompt expectedResponse providerName m0 = (None, m0').
Proof.
  revert m. induction names as [| first rest IH]; intros m Hin Hout; [destruct Hin |].
  rewrite testProviders_S in Hout. cbn [fst] in Hout.
  destruct (testProvider config prompt expectedResponse first m)
    as [[entry |] m1] eqn:Hone; cbn [fst snd] in Hout.
  - cbn [map] in Hout. rewrite (testProvider_names _ _ _ _ Hone) in Hout.
    destruct Hin as [-> | Hin]; [exfalso; apply Hout; left; reflexivity |].
    apply (IH m1 Hin). intros Hrest. apply Hout. right. exact Hrest.
  - destruct Hin as [-> | Hin]; [eauto |]. apply (IH m1 Hin Hout).
Qed.

Lemma testAllProviders_Ok (m m' : M) (r : TestResult) :
  testAllProviders config prompt expectedResponse m = (Ok r, m') ->
  let entries :=
    fst (testProviders config prompt expectedResponse
           (map fst (config_provider config)) m) in
  (entries = [] /\ failed r = None \/ entries <> [] /\ failed r = Some entries) /\
  test_message r
  = js "tested "
    ++ js (pretty (Z.of_nat (length (map fst (config_provider config)))))
    ++ match failed r with
       | Some _ => js " providers."
       | None => js " providers. all ok."
       end.
Proof.
  unfold testAllProviders. destruct (maxPromptLength <? length prompt)%nat;
    [discriminate |].
  destruct (testProviders config prompt expectedResponse
              (map fst (config_provider config)) m) as [entries m1].
  cbn [fst]. intros Hrun. injection Hrun as <- <-.
  destruct entries as [| e es]; cbn [failed test_message].
  - split; [left; auto | reflexivity].
  - split; [right; split; [discriminate | reflexivity] | reflexivity].
Qed.

(** X22 ([testAllProviders], the guard). The test returns a report
    exactly when the prompt has at most 100 code units, whatever the
    providers do: no failure of a provider escapes it. A longer prompt
    is refused with an error before the registry is touched. *)
Theorem testAllProviders_guard (m : M) :
  ((exists r m', testAllProviders config prompt expectedResponse m = (Ok r, m'))
   <-> (length prompt <= 100)%nat) /\
  ((100 < length prompt)%nat ->
   testAllProviders config prompt expectedResponse m
   = (Throw (new_Error (js "Prompt exceeds maximum length of 100 characters")), m)).
Proof.
  unfold testAllProviders, maxPromptLength.
  destruct (Nat.ltb_spec 100 (length prompt)) as [Hlong | Hshort].
  - split; [split | intros _; reflexivity].
    + intros (r & m' & Hrun). discriminate.
    + lia.
  - split; [split; [intros _; exact Hshort |] | lia].
    intros _.
    destruct (testProviders config prompt expectedResponse
                (map fst (config_provider config)) m) as [entries m1].
    eauto.
Qed.

(** X23 ([testAllProviders], the report). The message counts every
    configured provider, failed or not, and ends in [all ok.] exactly
    when the report has no [failed] field; a [failed] field is never
    empty, and it names providers of the configuration, each at most
    as often as configured, in the order of the configuration. *)
Theorem testAllProviders_report (m m' : M) (r : TestResult) :
  testAllProviders config prompt expectedResponse m = (Ok r, m') ->
  let count := js (pretty (Z.of_nat (length (config_provider config)))) in
  match failed r with
  | None => test_message r = js "tested " ++ count ++ js " providers. all ok."
  | Some entries =>
      test_message r = js "tested " ++ count ++ js " providers." /\
      entries <> [] /\
      sublist (map failed_provider entries) (map fst (config_provider config))
  end.
Proof.
  intros Hrun. destruct (testAllProviders_Ok m m' r Hrun) as [Hfailed Hmessage].
  rewrite length_map in Hmessage. cbv zeta.
  destruct Hfailed as [[_ Hnone] | [Hsome Hentries]].
  - rewrite Hnone in *. exact Hmessage.
  - rewrite Hentries in *. split; [exact Hmessage |]. split; [exact Hsome |].
    apply testProviders_sublist.
Qed.


(** X25 ([testAllProviders], a provider without default model). A
    configured provider for which the configuration names no default
    model, or an empty one, is always reported as failed. *)
Theorem testAllProviders_needs_defaultModel (m m' : M) (r : TestResult)
    (providerName : jsstring) :
  testAllProviders config prompt expectedResponse m = (Ok r, m') ->
  In providerName (map fst (config_provider config)) ->
  configuredModel (config_provider config) providerName = None \/
  configuredModel (config_provider config) providerName = Some [] ->
  exists entries,
    failed r = Some entries /\ In providerName (map failed_provider entries).
Proof.
  intros Hrun Hin Hmodel.
  destruct (testAllProviders_Ok m m' r Hrun) as [Hfailed _].
  set (entries := fst (testProviders config prompt expectedResponse
                         (map fst (config_provider config)) m)) in *.
  assert (Hreported : In providerName (map failed_provider entries)).
  { destruct (in_dec (fun a b : jsstring => decide (a = b)) providerName
                (map failed_provider entries)) as [Hyes | Hno]; [exact Hyes |].
    exfalso.
    destruct (testProviders_passed _ m providerName Hin Hno) as (m0 & m0' & Hpass).
    destruct (testProvider_passed _ _ _ Hpass)
      as (_ & _ & mdl & _ & _ & _ & Hconf & Hmdl & _).
    destruct Hmodel as [Hmodel | Hmodel]; rewrite Hmodel in Hconf;
      [discriminate | injection Hconf as <-; done]. }
  destruct Hfailed as [[Hempty _] | [_ Hsome]].
  - rewrite Hempty in Hreported. destruct Hreported.
  - eauto.
Qed.

End TesterFacts.

Lemma testAllProviders_report_witness :
  test_message bare_report = js "tested 2 providers." /\
  [bare_failed] <> [] /\
  sublist (map failed_provider [bare_failed])
          (map fst (config_provider two_provider_config)).
Proof.
  apply (testAllProviders_report (P := RefPlatform) (R := EchoRegistry)
           two_provider_config (js "Say hi") (js "HI") 0%nat 1%nat bare_report).
  reflexivity.
Defined.


Lemma testAllProviders_needs_defaultModel_witness :
  exists entries,
    failed bare_report = Some entries /\
    In (js "bare") (map failed_provider entries).
Proof.
  apply (testAllProviders_needs_defaultModel (P := RefPlatform) (R := EchoRegistry)
           two_provider_config (js "Say hi") (js "HI") 0%nat 1%nat bare_report
           (js "bare")).
  - reflexivity.
  - right. left. reflexivity.
  - left. reflexivity.
Defined.
